(** * VoiceApp: the agent conversation core, the tool dispatcher and the
      provider fallback, embedded from the Python sources.

    Python integers are [Z]; [len] of a list is [Z.of_nat (length _)];
    strings are [string]; a [dict] keyed by strings whose order matters is an
    association list, the tool registry is a [gmap].  Readings of the wall
    clock and freshly generated ids are explicit inputs. *)

From Stdlib Require Import ZArith String Ascii Lia.
From stdpp Require Import base list strings pretty gmap.

Local Open Scope string_scope.
Local Open Scope list_scope.
Local Open Scope Z_scope.

(** ** Python values and idioms *)

(** JSON-like Python values ([Dict[str, Any]] payloads). *)
#[warnings="-register-all"]
Inductive PyVal : Type :=
| PNone
| PBool (b : bool)
| PInt (z : Z)
| PStr (s : string)
| PList (l : list PyVal)
| PDict (d : list (string * PyVal)).

(** Python truthiness, as used by [or], [not] and [if]. *)
Definition truthy (v : PyVal) : bool :=
  match v with
  | PNone => false
  | PBool b => b
  | PInt z => negb (z =? 0)
  | PStr s => negb (String.eqb s "")
  | PList l => match l with [] => false | _ => true end
  | PDict d => match d with [] => false | _ => true end
  end.

(** [l[start:]] with Python's treatment of negative and out-of-range starts. *)
Definition py_slice_from {A : Type} (l : list A) (start : Z) : list A :=
  let n := Z.of_nat (length l) in
  let i := if decide (start < 0) then Z.max 0 (n + start) else Z.min start n in
  drop (Z.to_nat i) l.

(** [x or d] for an optional integer: [None] and [0] are both falsy. *)
Definition int_or (x : option Z) (d : Z) : Z :=
  match x with
  | Some v => if decide (v = 0) then d else v
  | None => d
  end.

(** [x or d] for an optional string: [None] and [""] are both falsy. *)
Definition str_or (x : option string) (d : string) : string :=
  match x with
  | Some v => if decide (v = "") then d else v
  | None => d
  end.

(** ** utils/helpers.py *)

(** [len(text) // 4] *)
Definition calculate_token_estimate (text : string) : Z :=
  Z.of_nat (String.length text) `div` 4.

(** ** agents/base_agent.py *)

Module BaseAgent.

Definition Metadata : Type := list (string * PyVal).

(** What [Message.__init__] reads from the environment: the id produced by
    [generate_message_id()] and [datetime.now()]. *)
Record Stamp : Type := mkStamp { fresh_id : string; now : string }.

Record Message : Type := mkMessage {
  id : string;
  role : string;
  content : string;
  timestamp : string;
  metadata : Metadata;
  token_count : Z
}.

(** [Message(role, content, message_id=None, metadata=metadata)] *)
Definition new_message (st : Stamp) (role content : string)
    (message_id : option string) (metadata : option Metadata) : Message :=
  {| id := str_or message_id (fresh_id st);
     role := role;
     content := content;
     timestamp := now st;
     metadata := match metadata with Some (_ :: _ as d) => d | _ => [] end;
     token_count := calculate_token_estimate content |}.

(** [total_cost] (a float) and the logger are left out: no modelled
    operation reads them. *)
Record Agent : Type := mkAgent {
  agent_id : string;
  system_prompt : string;
  max_history : Z;
  max_tokens : Z;
  conversation_history : list Message;
  total_tokens_used : Z;
  created_at : string
}.

Definition with_history (a : Agent) (h : list Message) : Agent :=
  {| agent_id := agent_id a;
     system_prompt := system_prompt a;
     max_history := max_history a;
     max_tokens := max_tokens a;
     conversation_history := h;
     total_tokens_used := total_tokens_used a;
     created_at := created_at a |}.

Definition default_system_prompt : string := "You are a helpful AI assistant.".

(** [BaseAgent.__init__] *)
Definition init (st : Stamp) (agent_id : string) (system_prompt : option string)
    (max_history max_tokens : Z) : Agent :=
  let prompt := str_or system_prompt default_system_prompt in
  {| agent_id := agent_id;
     system_prompt := prompt;
     max_history := max_history;
     max_tokens := max_tokens;
     conversation_history :=
       if decide (prompt = "") then []
       else [new_message st "system" prompt None None];
     total_tokens_used := 0;
     created_at := now st |}.

Definition is_system (msg : Message) : Prop := role msg = "system".

#[global] Instance is_system_dec msg : Decision (is_system msg) :=
  decide (role msg = "system").

Definition system_msgs (h : list Message) : list Message :=
  filter is_system h.

Definition other_msgs (h : list Message) : list Message :=
  filter (λ msg, ¬ is_system msg) h.

(** The trimming branch of [add_message]:
    [system_msgs + other_msgs[-self.max_history + len(system_msgs):]]. *)
Definition trimmed (max_history : Z) (h : list Message) : list Message :=
  system_msgs h
    ++ py_slice_from (other_msgs h)
         (- max_history + Z.of_nat (length (system_msgs h))).

(** The history left by [add_message] once [message] is appended. *)
Definition append_and_trim (max_history : Z) (h : list Message)
    (message : Message) : list Message :=
  let h' := h ++ [message] in
  if decide (Z.of_nat (length h') > max_history) then trimmed max_history h'
  else h'.

(** [BaseAgent.add_message]: returns the created message and the agent
    after the mutation. *)
Definition add_message (st : Stamp) (role content : string)
    (metadata : option Metadata) (a : Agent) : Message * Agent :=
  let message := new_message st role content None metadata in
  (message,
   with_history a
     (append_and_trim (max_history a) (conversation_history a) message)).

(** One [add_message] call as data, to speak about sequences of calls. *)
Record Append : Type := mkAppend {
  ap_stamp : Stamp;
  ap_role : string;
  ap_content : string;
  ap_metadata : option Metadata
}.

Definition add_call (a : Agent) (c : Append) : Agent :=
  snd (add_message (ap_stamp c) (ap_role c) (ap_content c) (ap_metadata c) a).

Definition add_messages (a : Agent) (calls : list Append) : Agent :=
  foldl add_call a calls.

(** An entry of the context handed to the model:
    [{"role": ..., "content": ...}]. *)
Record ContextEntry : Type := mkEntry { e_role : string; e_content : string }.

Definition to_entry (msg : Message) : ContextEntry :=
  {| e_role := role msg; e_content := content msg |}.

(** The [for message in reversed(...)] loop of [get_conversation_context];
    [pending] is what is left of the reversed history. *)
Fixpoint context_loop (max_tokens : Z) (pending : list Message)
    (context : list ContextEntry) (current_tokens : Z) : list ContextEntry :=
  match pending with
  | [] => context
  | message :: pending' =>
      if decide (current_tokens + token_count message > max_tokens)
      then context
      else context_loop max_tokens pending'
             (to_entry message :: context)
             (current_tokens + token_count message)
  end.

(** [max_tokens or self.max_tokens] *)
Definition effective_max_tokens (a : Agent) (max_tokens : option Z) : Z :=
  int_or max_tokens (BaseAgent.max_tokens a).

(** [BaseAgent.get_conversation_context] *)
Definition get_conversation_context (a : Agent) (max_tokens : option Z)
    : list ContextEntry :=
  context_loop (effective_max_tokens a max_tokens)
    (reverse (conversation_history a)) [] 0.

(** [BaseAgent.clear_history] *)
Definition clear_history (keep_system : bool) (a : Agent) : Agent :=
  with_history a
    (if keep_system then system_msgs (conversation_history a) else []).

Definition sum_tokens (l : list Message) : Z :=
  foldr (λ msg acc, token_count msg + acc) 0 l.

End BaseAgent.

(** ** Exceptions

    A call either returns or raises an [Exception]; [Raised e] carries
    [str(e)], which is all the modelled code reads of an exception. *)
Inductive Outcome (A : Type) : Type :=
| Returned (v : A)
| Raised (e : string).
Arguments Returned {A} v.
Arguments Raised {A} e.

(** [d.get(k)] on a dict held as an association list. *)
Fixpoint dict_get (d : list (string * PyVal)) (k : string) : option PyVal :=
  match d with
  | [] => None
  | (k', v) :: d' => if decide (k' = k) then Some v else dict_get d' k
  end.

(** [type(v).__name__] *)
Definition type_name (v : PyVal) : string :=
  match v with
  | PNone => "NoneType"
  | PBool _ => "bool"
  | PInt _ => "int"
  | PStr _ => "str"
  | PList _ => "list"
  | PDict _ => "dict"
  end.

(** [str(v)] for the scalars an f-string may be handed; lists and dicts
    are never formatted, the lookup that precedes raises on them. *)
Definition py_str (v : PyVal) : string :=
  match v with
  | PNone => "None"
  | PBool b => if b then "True" else "False"
  | PInt z => pretty z
  | PStr s => s
  | PList _ => "[...]"
  | PDict _ => "{...}"
  end.

(** [format_tool_output] of utils/helpers.py; [now] is
    [datetime.now().isoformat()]. *)
Definition format_tool_output (now : string) (tool_name result : PyVal)
    (error : option string) : PyVal :=
  PDict [("tool", tool_name);
         ("result", result);
         ("error", match error with Some e => PStr e | None => PNone end);
         ("timestamp", PStr now);
         ("success", PBool (bool_decide (error = None)))].

(** [v[k]] read defensively: the field [k] of a dict value. *)
Definition field (v : PyVal) (k : string) : option PyVal :=
  match v with
  | PDict d => dict_get d k
  | _ => None
  end.

(** ** mcp/tools.py *)

Module Arith.

(** Integer arithmetic as Python's [eval] computes it, for the expressions
    built from decimal integer literals, [+], [-], [*], parentheses and
    spaces.  [None] means the expression lies outside this fragment
    (division, floats, tuples, powers, malformed input); nothing is said
    about [eval] there. *)

Inductive token : Type :=
| TNum (n : Z)
| TPlus
| TMinus
| TStar
| TLParen
| TRParen.

Definition digit_of (c : ascii) : option Z :=
  let n := nat_of_ascii c in
  if decide (48 ≤ n ≤ 57)%nat then Some (Z.of_nat (n - 48)) else None.

(** Reads the digits that continue a literal whose value so far is [acc]. *)
Fixpoint read_number (acc : Z) (cs : list ascii) : Z * list ascii :=
  match cs with
  | c :: cs' =>
      match digit_of c with
      | Some d => read_number (10 * acc + d) cs'
      | None => (acc, cs)
      end
  | [] => (acc, [])
  end.

Fixpoint tokenize (fuel : nat) (cs : list ascii) : option (list token) :=
  match fuel with
  | O => None
  | S fuel' =>
      match cs with
      | [] => Some []
      | c :: cs' =>
          if decide (c = " "%char) then tokenize fuel' cs'
          else if decide (c = "+"%char) then cons TPlus <$> tokenize fuel' cs'
          else if decide (c = "-"%char) then cons TMinus <$> tokenize fuel' cs'
          else if decide (c = "("%char) then cons TLParen <$> tokenize fuel' cs'
          else if decide (c = ")"%char) then cons TRParen <$> tokenize fuel' cs'
          else if decide (c = "*"%char) then
            match cs' with
            | c' :: _ =>
                if decide (c' = "*"%char) then None
                else cons TStar <$> tokenize fuel' cs'
            | [] => cons TStar <$> tokenize fuel' cs'
            end
          else
            match digit_of c with
            | Some d =>
                (* a literal with a leading zero is left out of the fragment *)
                if decide (d = 0 ∧ is_Some (head cs' ≫= digit_of)) then None
                else
                  let '(n, rest) := read_number d cs' in
                  cons (TNum n) <$> tokenize fuel' rest
            | None => None
            end
      end
  end.

(** The grammar levels of Python's expression syntax that the fragment uses:
    [arith_expr], [term] and [factor], each with its loop. *)
Inductive level : Type :=
| LArith
| LArithRest (acc : Z)
| LTerm
| LTermRest (acc : Z)
| LFactor.

Fixpoint parse (fuel : nat) (lv : level) (ts : list token)
    : option (Z * list token) :=
  match fuel with
  | O => None
  | S fuel' =>
      match lv with
      | LArith =>
          '(v, ts') ← parse fuel' LTerm ts; parse fuel' (LArithRest v) ts'
      | LArithRest acc =>
          match ts with
          | TPlus :: ts' =>
              '(v, ts'') ← parse fuel' LTerm ts';
              parse fuel' (LArithRest (acc + v)) ts''
          | TMinus :: ts' =>
              '(v, ts'') ← parse fuel' LTerm ts';
              parse fuel' (LArithRest (acc - v)) ts''
          | _ => Some (acc, ts)
          end
      | LTerm =>
          '(v, ts') ← parse fuel' LFactor ts; parse fuel' (LTermRest v) ts'
      | LTermRest acc =>
          match ts with
          | TStar :: ts' =>
              '(v, ts'') ← parse fuel' LFactor ts';
              parse fuel' (LTermRest (acc * v)) ts''
          | _ => Some (acc, ts)
          end
      | LFactor =>
          match ts with
          | TPlus :: ts' => parse fuel' LFactor ts'
          | TMinus :: ts' =>
              '(v, ts'') ← parse fuel' LFactor ts'; Some (- v, ts'')
          | TNum n :: ts' => Some (n, ts')
          | TLParen :: ts' =>
              '(v, ts'') ← parse fuel' LArith ts';
              match ts'' with
              | TRParen :: ts''' => Some (v, ts''')
              | _ => None
              end
          | _ => None
          end
      end
  end.

Definition arith_eval (expression : string) : option Z :=
  let cs := list_ascii_of_string expression in
  ts ← tokenize (S (length cs)) cs;
  '(v, rest) ← parse (4 * length ts + 4) LArith ts;
  match rest with [] => Some v | _ => None end.

End Arith.

Module Tools.

Record MCPTool : Type := mkTool {
  name : string;
  description : string;
  parameters : PyVal;
  (** [await tool.execute] on the unpacked parameters, at clock reading
      [now]: binding the keyword arguments and running the body. *)
  execute : string → PyVal → Outcome PyVal
}.

(** [MCPTool.get_schema] *)
Definition get_schema (tool : MCPTool) : PyVal :=
  PDict [("name", PStr (name tool));
         ("description", PStr (description tool));
         ("input_schema", parameters tool)].

(** [set("0123456789+-*/()., ")] *)
Definition allowed_chars : list ascii :=
  list_ascii_of_string "0123456789+-*/()., ".

(** [all(c in allowed_chars for c in expression)] *)
Definition all_allowed (expression : string) : bool :=
  forallb (λ c, bool_decide (c ∈ allowed_chars))
    (list_ascii_of_string expression).

Definition invalid_characters : string := "Invalid characters in expression".

(** [CalculatorTool.execute(expression)].  [eval] is Python's builtin; the
    second component lists the expressions handed to it. *)
Definition calculator_execute (eval : string → Outcome PyVal)
    (now : string) (expression : string) : PyVal * list string :=
  if all_allowed expression then
    match eval expression with
    | Returned result =>
        (format_tool_output now (PStr "calculator")
           (PDict [("expression", PStr expression); ("result", result)]) None,
         [expression])
    | Raised e =>
        (format_tool_output now (PStr "calculator") PNone (Some e),
         [expression])
    end
  else
    (format_tool_output now (PStr "calculator") PNone
       (Some invalid_characters), []).

(** [eval] agrees with integer arithmetic on the fragment of [Arith]. *)
Definition eval_computes_arith (eval : string → Outcome PyVal) : Prop :=
  ∀ e n, Arith.arith_eval e = Some n → eval e = Returned (PInt n).

(** An [eval] that does so and raises elsewhere. *)
Definition arith_only_eval (e : string) : Outcome PyVal :=
  match Arith.arith_eval e with
  | Some n => Returned (PInt n)
  | None => Raised "unsupported expression"
  end.

(** The characters the specification names: digits, operators, parentheses
    and whitespace. *)
Definition described_chars : list ascii :=
  list_ascii_of_string "0123456789"
    ++ list_ascii_of_string "+-*/%@&|^~<>=!"
    ++ list_ascii_of_string "()"
    ++ [" "%char; ascii_of_nat 9; ascii_of_nat 10; ascii_of_nat 11;
        ascii_of_nat 12; ascii_of_nat 13].

(** [MCPToolRegistry.tools] *)
Abbreviation Registry := (gmap string MCPTool).

(** [MCPToolRegistry.register] *)
Definition register (tool : MCPTool) (tools : Registry) : Registry :=
  <[name tool := tool]> tools.

(** [MCPToolRegistry.get_tool] *)
Definition get_tool (tools : Registry) (name : string) : option MCPTool :=
  tools !! name.

Definition not_found (shown : string) : string :=
  "Tool '" +:+ shown +:+ "' not found".

(** [MCPToolRegistry.execute_tool(name, parameters)] for [name: str]. *)
Definition execute_tool (now : string) (tools : Registry) (name : string)
    (parameters : PyVal) : Outcome PyVal :=
  match get_tool tools name with
  | None =>
      Returned (format_tool_output now (PStr name) PNone
                  (Some (not_found name)))
  | Some tool =>
      match execute tool now parameters with
      | Returned v => Returned v
      | Raised e =>
          Returned (format_tool_output now (PStr name) PNone (Some e))
      end
  end.

(** The same call when the caller hands over a name that is not a string:
    [self.tools.get(name)] raises on an unhashable name and finds no tool
    under any other. *)
Definition execute_tool_any (now : string) (tools : Registry)
    (tool_name parameters : PyVal) : Outcome PyVal :=
  match tool_name with
  | PStr name => execute_tool now tools name parameters
  | PList _ | PDict _ =>
      Raised ("unhashable type: '" +:+ type_name tool_name +:+ "'")
  | _ =>
      Returned (format_tool_output now tool_name PNone
                  (Some (not_found (py_str tool_name))))
  end.

End Tools.

(** ** mcp/server.py *)

Module MCPServer.

Abbreviation ToolCall := (list (string * PyVal)).

(** [tool_call.get("name") or tool_call.get("function", {}).get("name")] *)
Definition tool_name_of (tool_call : ToolCall) : Outcome PyVal :=
  let n := default PNone (dict_get tool_call "name") in
  if truthy n then Returned n
  else
    match default (PDict []) (dict_get tool_call "function") with
    | PDict f => Returned (default PNone (dict_get f "name"))
    | v => Raised ("'" +:+ type_name v +:+ "' object has no attribute 'get'")
    end.

(** The parameter extraction; [json_loads] is [json.loads]. *)
Definition parameters_of (json_loads : string → Outcome PyVal)
    (tool_call : ToolCall) : Outcome PyVal :=
  match dict_get tool_call "arguments" with
  | Some (PStr s) => json_loads s
  | Some v => Returned v
  | None =>
      match dict_get tool_call "input" with
      | Some v => Returned v
      | None => Returned (default (PDict []) (dict_get tool_call "parameters"))
      end
  end.

(** [MCPServer.execute_tool] *)
Definition execute_tool (now : string) (tools : Tools.Registry)
    (tool_name parameters : PyVal) : Outcome PyVal :=
  Tools.execute_tool_any now tools tool_name parameters.

(** The loop of [MCPServer.execute_tools]; an exception leaves it at once. *)
Fixpoint execute_tools_loop (json_loads : string → Outcome PyVal)
    (now : string) (tools : Tools.Registry) (tool_calls : list ToolCall)
    (results : list PyVal) : Outcome (list PyVal) :=
  match tool_calls with
  | [] => Returned results
  | tool_call :: tool_calls' =>
      match tool_name_of tool_call with
      | Raised e => Raised e
      | Returned tool_name =>
          if negb (truthy tool_name)
          then execute_tools_loop json_loads now tools tool_calls' results
          else
            match parameters_of json_loads tool_call with
            | Raised e => Raised e
            | Returned parameters =>
                match execute_tool now tools tool_name parameters with
                | Raised e => Raised e
                | Returned result =>
                    execute_tools_loop json_loads now tools tool_calls'
                      (results ++ [result])
                end
            end
      end
  end.

(** [MCPServer.execute_tools] *)
Definition execute_tools (json_loads : string → Outcome PyVal)
    (now : string) (tools : Tools.Registry) (tool_calls : list ToolCall)
    : Outcome (list PyVal) :=
  execute_tools_loop json_loads now tools tool_calls [].

(** A tool call the loop dispatches under the name [name] with
    [parameters]. *)
Definition dispatched (json_loads : string → Outcome PyVal)
    (tool_call : ToolCall) (name : string) (parameters : PyVal) : Prop :=
  tool_name_of tool_call = Returned (PStr name)
  ∧ name ≠ ""
  ∧ parameters_of json_loads tool_call = Returned parameters.

(** A tool call the loop skips: no name under either key. *)
Definition nameless (tool_call : ToolCall) : Prop :=
  ∃ n, tool_name_of tool_call = Returned n ∧ truthy n = false.

(** Whether the loop gets past [if not tool_name: continue]. *)
Definition has_name (tool_call : ToolCall) : bool :=
  match tool_name_of tool_call with
  | Returned n => truthy n
  | Raised _ => false
  end.

(** A tool call the loop handles without an exception of its own. *)
Definition well_formed (json_loads : string → Outcome PyVal)
    (tool_call : ToolCall) : Prop :=
  nameless tool_call ∨ ∃ name p, dispatched json_loads tool_call name p.

(** [r] is what dispatching [tool_call] on its own returns. *)
Definition result_of (json_loads : string → Outcome PyVal) (now : string)
    (tools : Tools.Registry) (tool_call : ToolCall) (r : PyVal) : Prop :=
  ∃ name p, dispatched json_loads tool_call name p
    ∧ Tools.execute_tool now tools name p = Returned r.

End MCPServer.

(** ** llm/llm_factory.py *)

Module LLMFactory.

Inductive LLMProvider : Type := CLAUDE | OPENAI.

(** [LLMProvider.value] *)
Definition value (p : LLMProvider) : string :=
  match p with CLAUDE => "claude" | OPENAI => "openai" end.

(** The two fields of [settings] the factory reads. *)
Record Settings : Type := mkSettings {
  anthropic_api_key : option string;
  openai_api_key : option string
}.

(** Truthiness of an [Optional[str]] key. *)
Definition present (key : option string) : bool :=
  match key with
  | Some k => negb (String.eqb k "")
  | None => false
  end.

(** The client objects; each constructor succeeds once its key is present,
    which [get_client] has checked. *)
Inductive Client : Type := ClaudeClient | OpenAIClient.

(** The class attributes [_clients] and [_default_provider]. *)
Record Factory : Type := mkFactory {
  clients : gmap string Client;
  default_provider : LLMProvider
}.

Definition cache (f : Factory) (provider : string) (c : Client) : Factory :=
  {| clients := <[provider := c]> (clients f);
     default_provider := default_provider f |}.

(** [LLMFactory.get_client] *)
Definition get_client (settings : Settings) (provider : option string)
    (f : Factory) : Outcome Client * Factory :=
  let provider := str_or provider (value (default_provider f)) in
  match clients f !! provider with
  | Some c => (Returned c, f)
  | None =>
      if decide (provider = value CLAUDE) then
        if present (anthropic_api_key settings)
        then (Returned ClaudeClient, cache f provider ClaudeClient)
        else (Raised "Anthropic API key not configured", f)
      else if decide (provider = value OPENAI) then
        if present (openai_api_key settings)
        then (Returned OpenAIClient, cache f provider OpenAIClient)
        else (Raised "OpenAI API key not configured", f)
      else (Raised ("Unknown LLM provider: " +:+ provider), f)
  end.

(** [LLMFactory.get_available_providers] *)
Definition get_available_providers (settings : Settings) : list string :=
  (if present (anthropic_api_key settings) then [value CLAUDE] else [])
    ++ (if present (openai_api_key settings) then [value OPENAI] else []).

(** The [for provider in available] loop of [get_fallback_client]: the
    first provider other than the default whose client can be had;
    [None] when the loop runs out. *)
Fixpoint first_other_client (settings : Settings) (default : string)
    (available : list string) (f : Factory) : option Client * Factory :=
  match available with
  | [] => (None, f)
  | provider :: available' =>
      if decide (provider ≠ default) then
        match get_client settings (Some provider) f with
        | (Returned c, f') => (Some c, f')
        | (Raised _, f') => first_other_client settings default available' f'
        end
      else first_other_client settings default available' f
  end.

Definition no_providers : string := "No LLM providers configured".

(** [LLMFactory.get_fallback_client] *)
Definition get_fallback_client (settings : Settings) (f : Factory)
    : Outcome Client * Factory :=
  let available := get_available_providers settings in
  match available with
  | [] => (Raised no_providers, f)
  | _ =>
      match first_other_client settings (value (default_provider f))
              available f with
      | (Some c, f') => (Returned c, f')
      | (None, f') => get_client settings None f'
      end
  end.

(** [LLMFactory.chat_with_fallback].  [chat c] is what [await c.chat(...)]
    does for the request at hand; the last component lists the clients
    whose [chat] was awaited, in order. *)
Definition chat_with_fallback {Response : Type}
    (chat : Client → Outcome Response) (settings : Settings)
    (provider : option string) (f : Factory)
    : Outcome Response * Factory * list Client :=
  let fallback (f1 : Factory) (tried : list Client) :=
    match get_fallback_client settings f1 with
    | (Returned fallback_client, f2) =>
        (chat fallback_client, f2, tried ++ [fallback_client])
    | (Raised e, f2) => (Raised e, f2, tried)
    end in
  match get_client settings provider f with
  | (Returned client, f1) =>
      match chat client with
      | Returned r => (Returned r, f1, [client])
      | Raised _ => fallback f1 [client]
      end
  | (Raised _, f1) => fallback f1 []
  end.

(** [LLMFactory.set_default_provider] *)
Definition set_default_provider (provider : string) (f : Factory)
    : Outcome unit * Factory :=
  if decide (provider = value CLAUDE) then
    (Returned (), {| clients := clients f; default_provider := CLAUDE |})
  else if decide (provider = value OPENAI) then
    (Returned (), {| clients := clients f; default_provider := OPENAI |})
  else (Raised ("Invalid provider: " +:+ provider), f).

(** The class as loaded: nothing cached, Claude the default. *)
Definition initial : Factory :=
  {| clients := ∅; default_provider := CLAUDE |}.

(** The client of the provider that is not [p]. *)
Definition other_client (p : LLMProvider) : Client :=
  match p with CLAUDE => OpenAIClient | OPENAI => ClaudeClient end.

Definition client_of (p : LLMProvider) : Client :=
  match p with CLAUDE => ClaudeClient | OPENAI => OpenAIClient end.

(** Whether the credential of provider [p] is present. *)
Definition configured (settings : Settings) (p : LLMProvider) : bool :=
  match p with
  | CLAUDE => present (anthropic_api_key settings)
  | OPENAI => present (openai_api_key settings)
  end.

(** The result and the clients tried, without the factory. *)
Definition observed {Response : Type}
    (r : Outcome Response * Factory * list Client)
    : Outcome Response * list Client :=
  (r.1.1, r.2).

(** Cached clients are filed under their provider's own name. *)
Definition cache_consistent (f : Factory) : Prop :=
  ∀ provider c, clients f !! provider = Some c →
    ∃ p, provider = value p ∧ c = client_of p.

End LLMFactory.

(** ** Fixtures for the examples *)

Module Fixtures.
Import BaseAgent.

Definition stamp0 : Stamp :=
  {| fresh_id := "0123456789abcdef"; now := "2024-01-01T00:00:00" |}.

Definition call (role content : string) : Append :=
  {| ap_stamp := stamp0; ap_role := role; ap_content := content;
     ap_metadata := None |}.

(** The history as role and content pairs. *)
Definition entries (a : Agent) : list ContextEntry :=
  to_entry <$> conversation_history a.

Definition fresh (system_prompt : string) (max_history : Z) : Agent :=
  init stamp0 "agent" (Some system_prompt) max_history 4000.

Definition scenario : Agent :=
  add_messages (fresh "S" 3)
    [call "user" "A"; call "assistant" "B"; call "user" "C";
     call "assistant" "D"].

Definition interleaved : Agent :=
  add_messages (fresh "S" 3) [call "user" "A"; call "system" "T"].

Definition two_turns : Agent :=
  add_messages (fresh "S" 50)
    [call "user" "12345678"; call "assistant" "1234"].

Definition long_turn : Agent :=
  add_messages (fresh "S" 50) [call "user" "12345678"].

(** A tool that echoes its keyword arguments and one whose body raises. *)
Definition echo_tool : Tools.MCPTool :=
  {| Tools.name := "echo";
     Tools.description := "Echo the parameters";
     Tools.parameters := PDict [("type", PStr "object")];
     Tools.execute := λ now p,
       match p with
       | PDict d =>
           Returned (format_tool_output now (PStr "echo") (PDict d) None)
       | _ =>
           Raised ("argument after ** must be a mapping, not "
                   +:+ type_name p)
       end |}.

Definition broken_tool : Tools.MCPTool :=
  {| Tools.name := "broken";
     Tools.description := "Always raises";
     Tools.parameters := PDict [("type", PStr "object")];
     Tools.execute := λ _ _, Raised "boom" |}.

Definition two_tools : Tools.Registry :=
  Tools.register broken_tool (Tools.register echo_tool ∅).

(** A [json.loads] that accepts only the empty object. *)
Definition json_loads0 (s : string) : Outcome PyVal :=
  if decide (s = "{}") then Returned (PDict [])
  else Raised "Expecting value: line 1 column 1 (char 0)".

Definition tool_call (name : string) (arguments : PyVal) : MCPServer.ToolCall :=
  [("name", PStr name); ("arguments", arguments)].

Definition mixed_batch : list MCPServer.ToolCall :=
  [tool_call "broken" (PDict []);
   tool_call "nope" (PDict []);
   tool_call "echo" (PStr "{}")].

Definition both_keys : LLMFactory.Settings :=
  {| LLMFactory.anthropic_api_key := Some "sk-ant";
     LLMFactory.openai_api_key := Some "sk-oai" |}.

Definition no_keys : LLMFactory.Settings :=
  {| LLMFactory.anthropic_api_key := None;
     LLMFactory.openai_api_key := None |}.

(** OpenAI is down, Claude answers. *)
Definition openai_down (c : LLMFactory.Client) : Outcome string :=
  match c with
  | LLMFactory.OpenAIClient => Raised "openai: service unavailable"
  | LLMFactory.ClaudeClient => Returned "hello from claude"
  end.

(** Claude is down, OpenAI answers. *)
Definition claude_down (c : LLMFactory.Client) : Outcome string :=
  match c with
  | LLMFactory.ClaudeClient => Raised "claude: service unavailable"
  | LLMFactory.OpenAIClient => Returned "hello from openai"
  end.

End Fixtures.

(** ** More of utils/helpers.py

    A [string] stands for a Python string of code points below 256, one
    character each, so that [len] counts characters. *)

Module Helpers.

(** [len(s)] *)
Definition len (s : string) : Z := Z.of_nat (String.length s).

(** [l[lo:hi]] with Python's treatment of negative and out-of-range
    bounds. *)
Definition py_slice {A : Type} (l : list A) (lo hi : Z) : list A :=
  let n := Z.of_nat (length l) in
  let norm i := if decide (i < 0) then Z.max 0 (n + i) else Z.min i n in
  take (Z.to_nat (norm hi - norm lo)) (drop (Z.to_nat (norm lo)) l).

(** [s[lo:hi]] on a string. *)
Definition str_slice (s : string) (lo hi : Z) : string :=
  string_of_list_ascii (py_slice (list_ascii_of_string s) lo hi).

(** The [while start < len(text)] loop of [chunk_text]; [None] when the
    fuel runs out before the loop ends. *)
Fixpoint chunk_loop (fuel : nat) (text : string) (chunk_size overlap : Z)
    (start : Z) (chunks : list string) : option (list string) :=
  match fuel with
  | O => None
  | S fuel' =>
      if decide (start < len text) then
        let end_ := start + chunk_size in
        let chunk := str_slice text start end_ in
        chunk_loop fuel' text chunk_size overlap (end_ - overlap)
          (chunks ++ [chunk])
      else Some chunks
  end.

(** [chunk_text(text, chunk_size, overlap)] *)
Definition chunk_text (fuel : nat) (text : string) (chunk_size overlap : Z)
    : option (list string) :=
  if decide (len text ≤ chunk_size) then Some [text]
  else chunk_loop fuel text chunk_size overlap 0 [].

(** How many chunks a text of [n] characters gives when the window starts
    at [start] and advances by [step]: the least [m] with
    [start + m * step >= n]. *)
Definition chunk_count (n start step : Z) : nat :=
  Z.to_nat ((n - start + step - 1) `div` step).

(** [str.isspace] on the code points below 256. *)
Definition is_space (c : ascii) : bool :=
  let n := nat_of_ascii c in
  bool_decide ((9 ≤ n ≤ 13) ∨ (28 ≤ n ≤ 32) ∨ n = 133 ∨ n = 160)%nat.

Fixpoint drop_while {A : Type} (p : A → bool) (l : list A) : list A :=
  match l with
  | [] => []
  | x :: l' => if p x then drop_while p l' else l
  end.

(** [s.strip()] on the characters of [s]. *)
Definition strip_chars (l : list ascii) : list ascii :=
  reverse (drop_while is_space (reverse (drop_while is_space l))).

Definition py_strip (s : string) : string :=
  string_of_list_ascii (strip_chars (list_ascii_of_string s)).

Definition NUL : ascii := ascii_of_nat 0.

(** [text.replace("\x00", "")] *)
Definition remove_nul (s : string) : string :=
  string_of_list_ascii (filter (λ c, c ≠ NUL) (list_ascii_of_string s)).

(** [sanitize_input(text, max_length)] *)
Definition sanitize_input (text : string) (max_length : Z) : string :=
  let text := remove_nul text in
  let text :=
    if decide (len text > max_length) then str_slice text 0 max_length
    else text in
  py_strip text.

(** What [sanitize_input] holds between truncating and stripping. *)
Definition truncated (text : string) (max_length : Z) : string :=
  if decide (len (remove_nul text) > max_length)
  then str_slice (remove_nul text) 0 max_length
  else remove_nul text.

(** Neither the first nor the last character is whitespace. *)
Definition trimmed_chars (l : list ascii) : Prop :=
  (∀ c, head l = Some c → is_space c = false)
  ∧ (∀ c, last l = Some c → is_space c = false).

(** [d[k] = v] on a dict held in insertion order: an existing key keeps
    its place, a new one goes last. *)
Fixpoint dict_set (d : list (string * PyVal)) (k : string) (v : PyVal)
    : list (string * PyVal) :=
  match d with
  | [] => [(k, v)]
  | (k', v') :: d' =>
      if decide (k' = k) then (k, v) :: d' else (k', v') :: dict_set d' k v
  end.

(** [d.update(other)] *)
Definition dict_update (d other : list (string * PyVal))
    : list (string * PyVal) :=
  foldl (λ acc kv, dict_set acc kv.1 kv.2) d other.

(** [merge_metadata(base, additional)]: [base.copy()] then [update]. *)
Definition merge_metadata (base additional : list (string * PyVal))
    : list (string * PyVal) :=
  dict_update base additional.

End Helpers.

(** ** rag/retriever.py *)

Module Retriever.
Import Helpers.

(** [s.split()]: the maximal runs of characters that are not whitespace;
    [cur] holds the run being read, last character first. *)
Fixpoint split_ws (cur : list ascii) (l : list ascii) : list (list ascii) :=
  match l with
  | [] => match cur with [] => [] | _ => [reverse cur] end
  | c :: l' =>
      if is_space c then
        match cur with
        | [] => split_ws [] l'
        | _ => reverse cur :: split_ws [] l'
        end
      else split_ws (c :: cur) l'
  end.

(** [" ".join(words)] *)
Fixpoint join_space (words : list (list ascii)) : list ascii :=
  match words with
  | [] => []
  | [w] => w
  | w :: words' => w ++ " "%char :: join_space words'
  end.

(** A word: not empty and free of whitespace. *)
Definition word (w : list ascii) : Prop :=
  w ≠ [] ∧ Forall (λ c, is_space c = false) w.

(** [RAGRetriever.preprocess_query] *)
Definition preprocess_query (query : string) : string :=
  let query := sanitize_input query 1000 in
  string_of_list_ascii
    (join_space (split_ws [] (list_ascii_of_string query))).

End Retriever.

(** ** More of mcp/tools.py and mcp/server.py *)

Module FileRead.

(** [FileReadTool.execute(file_path)] for a tool built with [base_path].
    [join] and [abspath] are [os.path.join] and [os.path.abspath];
    [read path] is [open(path, "r", encoding="utf-8")] followed by
    [f.read()].  The second component lists the paths handed to [open]. *)
Definition file_read_execute (join : string → string → string)
    (abspath : string → string) (read : string → Outcome string)
    (now : string) (base_path file_path : string) : PyVal * list string :=
  let full_path := join base_path file_path in
  if negb (String.prefix (abspath base_path) (abspath full_path)) then
    (format_tool_output now (PStr "file_read") PNone
       (Some "Invalid file path"), [])
  else
    match read full_path with
    | Returned content =>
        (format_tool_output now (PStr "file_read")
           (PDict [("file_path", PStr file_path);
                   ("content", PStr content);
                   ("size", PInt (Helpers.len content))]) None,
         [full_path])
    | Raised e =>
        (format_tool_output now (PStr "file_read") PNone (Some e),
         [full_path])
    end.

End FileRead.

Module Batches.
Import MCPServer.

(** A tool call at which the loop of [execute_tools] raises [e]: reading
    its name raises, or it carries a name and reading its parameters
    raises. *)
Definition breaks (json_loads : string → Outcome PyVal)
    (tool_call : ToolCall) (e : string) : Prop :=
  tool_name_of tool_call = Raised e
  ∨ (has_name tool_call = true ∧ parameters_of json_loads tool_call = Raised e).

End Batches.

(** ** More of llm/llm_factory.py *)

Module Providers.
Import LLMFactory.

(** The provider that is not [p]. *)
Definition other_provider (p : LLMProvider) : LLMProvider :=
  match p with CLAUDE => OPENAI | OPENAI => CLAUDE end.

End Providers.

(** ** More fixtures *)

Module MoreFixtures.
Import BaseAgent Fixtures.

(** Three system turns under [max_history = 1]. *)
Definition crowded : Agent :=
  add_messages (fresh "S" 1) [call "system" "T"; call "system" "U"].

Definition claude_only : LLMFactory.Settings :=
  {| LLMFactory.anthropic_api_key := Some "sk-ant";
     LLMFactory.openai_api_key := None |}.

Definition openai_only : LLMFactory.Settings :=
  {| LLMFactory.anthropic_api_key := None;
     LLMFactory.openai_api_key := Some "sk-oai" |}.

(** A handler that returns a bare number, and one that, like the
    built-in tools, catches its own failure and returns the failed
    output. *)
Definition answer_tool : Tools.MCPTool :=
  {| Tools.name := "answer";
     Tools.description := "Return a number";
     Tools.parameters := PDict [("type", PStr "object")];
     Tools.execute := λ _ _, Returned (PInt 42) |}.

Definition quiet_tool : Tools.MCPTool :=
  {| Tools.name := "quiet";
     Tools.description := "Report a failure without raising";
     Tools.parameters := PDict [("type", PStr "object")];
     Tools.execute := λ now _,
       Returned (format_tool_output now (PStr "quiet") PNone
                   (Some "Invalid characters in expression")) |}.

Definition plain_tools : Tools.Registry :=
  Tools.register quiet_tool (Tools.register answer_tool ∅).

(** A toy file system and toy path functions for the examples. *)
Definition join0 (a b : string) : string := a +:+ "/" +:+ b.

Definition abspath0 (p : string) : string := "/srv/" +:+ p.

Definition read0 (path : string) : Outcome string :=
  if decide (path = "data/notes.txt") then Returned "hello"
  else Raised ("[Errno 2] No such file or directory: '" +:+ path +:+ "'").

End MoreFixtures.

(** * Proofs *)

Section PySlice.
Context {A : Type}.
Implicit Types l : list A.

Lemma py_slice_from_suffix l start : py_slice_from l start `suffix_of` l.
Proof. unfold py_slice_from. apply suffix_drop. Qed.

Lemma py_slice_from_length_neg l start :
  start < 0 →
  Z.of_nat (length (py_slice_from l start))
    = Z.min (Z.of_nat (length l)) (- start).
Proof.
  intros Hs. unfold py_slice_from.
  rewrite decide_True by done. rewrite length_drop. lia.
Qed.

Lemma py_slice_from_zero l : py_slice_from l 0 = l.
Proof.
  unfold py_slice_from. rewrite decide_False by lia.
  replace (Z.to_nat _) with 0%nat by lia. done.
Qed.
End PySlice.

Section History.
Import BaseAgent.
Implicit Types h : list Message.

Lemma system_msgs_all h : Forall is_system (system_msgs h).
Proof. apply Forall_forall. intros x Hx. by apply list_elem_of_filter in Hx as [? _]. Qed.

Lemma other_msgs_all h : Forall (λ msg, ¬ is_system msg) (other_msgs h).
Proof. apply Forall_forall. intros x Hx. by apply list_elem_of_filter in Hx as [? _]. Qed.

Lemma filter_all_id (P : Message → Prop) `{∀ x, Decision (P x)} h :
  Forall P h → filter P h = h.
Proof.
  induction 1 as [|x l Hx _ IH]; [done|].
  rewrite filter_cons, decide_True by done. by rewrite IH.
Qed.

Lemma filter_none_nil (P : Message → Prop) `{∀ x, Decision (P x)} h :
  Forall (λ x, ¬ P x) h → filter P h = [].
Proof.
  induction 1 as [|x l Hx _ IH]; [done|].
  by rewrite filter_cons, decide_False.
Qed.

Lemma suffix_Forall (P : Message → Prop) h1 h2 :
  h1 `suffix_of` h2 → Forall P h2 → Forall P h1.
Proof. intros [k ->] HP. by apply Forall_app in HP as [_ ?]. Qed.

(** The system turns of a trimmed history are those of the input. *)
Lemma system_msgs_trimmed mh h : system_msgs (trimmed mh h) = system_msgs h.
Proof.
  unfold trimmed. unfold system_msgs at 1. rewrite filter_app.
  fold (system_msgs (system_msgs h)).
  unfold system_msgs at 1. rewrite filter_all_id by apply system_msgs_all.
  rewrite filter_none_nil; [by rewrite app_nil_r|].
  eapply suffix_Forall; [apply py_slice_from_suffix | apply other_msgs_all].
Qed.

Lemma other_msgs_trimmed mh h :
  other_msgs (trimmed mh h)
    = py_slice_from (other_msgs h)
        (- mh + Z.of_nat (length (system_msgs h))).
Proof.
  unfold trimmed. unfold other_msgs at 1. rewrite filter_app.
  rewrite filter_none_nil.
  - simpl. apply filter_all_id.
    eapply suffix_Forall; [apply py_slice_from_suffix | apply other_msgs_all].
  - eapply Forall_impl; [apply system_msgs_all|]. tauto.
Qed.

Lemma system_msgs_append_and_trim mh h m :
  system_msgs (append_and_trim mh h m) = system_msgs (h ++ [m]).
Proof.
  unfold append_and_trim. case_decide; [|done]. apply system_msgs_trimmed.
Qed.

Lemma trimmed_length_bound mh h :
  Z.of_nat (length (system_msgs h)) < mh →
  Z.of_nat (length (trimmed mh h)) ≤ mh.
Proof.
  intros Hs. unfold trimmed. rewrite length_app, Nat2Z.inj_add.
  rewrite py_slice_from_length_neg by lia. lia.
Qed.

Lemma append_and_trim_bound mh h m :
  Z.of_nat (length (system_msgs (h ++ [m]))) < mh →
  Z.of_nat (length (append_and_trim mh h m)) ≤ mh.
Proof.
  intros Hs. unfold append_and_trim. case_decide; [|lia].
  by apply trimmed_length_bound.
Qed.

Lemma add_messages_max_history a calls :
  max_history (add_messages a calls) = max_history a.
Proof.
  unfold add_messages. revert a.
  induction calls as [|c calls IH]; intros a; [done|].
  simpl. by rewrite IH.
Qed.

Lemma add_messages_snoc a calls c :
  add_messages a (calls ++ [c]) = add_call (add_messages a calls) c.
Proof. unfold add_messages. by rewrite foldl_app. Qed.
End History.

(** ** The bounded history (agents/base_agent.py) *)

Section Trimming.
Import BaseAgent Fixtures.

(** C1, as the code has it: after every [add_message] call of any sequence
    of calls, the history holds at most [max_history] turns provided it
    holds fewer than [max_history] system turns. *)
Theorem add_messages_history_bound (a : Agent) (calls : list Append) :
  calls ≠ [] →
  Z.of_nat (length (system_msgs (conversation_history (add_messages a calls))))
    < max_history a →
  Z.of_nat (length (conversation_history (add_messages a calls)))
    ≤ max_history a.
Proof.
  induction calls as [|c calls' _] using rev_ind; [done|].
  intros _. rewrite add_messages_snoc.
  pose proof (add_messages_max_history a calls') as Hmax.
  destruct (add_messages a calls') as [? ? mh ? h ? ?]; simpl in *. subst mh.
  unfold add_call; simpl. rewrite system_msgs_append_and_trim.
  apply append_and_trim_bound.
Qed.

Lemma add_messages_history_bound_witness :
  Z.of_nat (length (conversation_history
    (add_messages (fresh "S" 3)
       [call "user" "A"; call "assistant" "B"; call "user" "C"]))) ≤ 3.
Proof.
  apply (add_messages_history_bound (fresh "S" 3)
           [call "user" "A"; call "assistant" "B"; call "user" "C"]).
  - discriminate.
  - vm_compute. reflexivity.
Defined.

(** C1 fails as stated: with [max_history = 1], a second system turn
    leaves two turns in the history. *)
Lemma history_bound_counterexample :
  max_history (add_messages (fresh "S" 1) [call "system" "T"])
    < Z.of_nat (length (conversation_history
                          (add_messages (fresh "S" 1) [call "system" "T"]))).
Proof. vm_compute. reflexivity. Qed.

(** When the system turns alone fill [max_history], the slice starts at
    [-0], that is at the front, and no turn is dropped. *)
Lemma trimmed_keeps_everything_at_zero_start (h : list Message) :
  trimmed (Z.of_nat (length (system_msgs h))) h = system_msgs h ++ other_msgs h.
Proof.
  unfold trimmed.
  replace (- _ + _) with 0 by lia. by rewrite py_slice_from_zero.
Qed.

Example full_of_system_not_trimmed :
  entries (add_messages (fresh "S" 1)
             [call "user" "A"])
    = [mkEntry "system" "S"; mkEntry "user" "A"].
Proof. reflexivity. Qed.

(** C2: a system turn of the history is still in the history after
    [add_message], whatever the history and the appended turn are. *)
Theorem add_message_keeps_system_turns (st : Stamp) (r c : string)
    (md : option Metadata) (a : Agent) (msg : Message) :
  msg ∈ conversation_history a →
  role msg = "system" →
  msg ∈ conversation_history (add_message st r c md a).2.
Proof.
  intros Hin Hsys. simpl.
  assert (msg ∈ system_msgs
            (append_and_trim (max_history a) (conversation_history a)
               (new_message st r c None md))) as H.
  { rewrite system_msgs_append_and_trim.
    apply list_elem_of_filter. split; [done|].
    apply elem_of_app. by left. }
  by apply list_elem_of_filter in H as [_ ?].
Qed.

Lemma add_message_keeps_system_turns_witness :
  new_message stamp0 "system" "S" None None
    ∈ conversation_history
        (add_message stamp0 "user" "A" None
           (fresh "S" 1)).2.
Proof.
  apply (add_message_keeps_system_turns stamp0 "user" "A" None
           (fresh "S" 1)).
  - vm_compute. left.
  - reflexivity.
Defined.

(** C3, as the code has it: the scenario ends with [S, C, D]. *)
Theorem scenario_history :
  entries scenario
    = [mkEntry "system" "S"; mkEntry "user" "C"; mkEntry "assistant" "D"].
Proof. reflexivity. Qed.

(** C3 fails as stated: the history is not [S, B, C, D]. *)
Lemma scenario_counterexample :
  length (entries scenario) = 3%nat
  ∧ entries scenario
      ≠ [mkEntry "system" "S"; mkEntry "assistant" "B"; mkEntry "user" "C";
         mkEntry "assistant" "D"].
Proof. split; [reflexivity|]. vm_compute. discriminate. Qed.

(** C10: when [add_message] trims, the new history is its system turns
    followed by its other turns; the system turns are those of the
    untrimmed history in their order, the others are the most recent of
    the untrimmed history in their order. *)
Theorem add_message_trim_groups (st : Stamp) (r c : string)
    (md : option Metadata) (a : Agent) :
  let untrimmed := conversation_history a ++ [new_message st r c None md] in
  let h' := conversation_history (add_message st r c md a).2 in
  Z.of_nat (length untrimmed) > max_history a →
  h' = system_msgs h' ++ other_msgs h'
  ∧ system_msgs h' = system_msgs untrimmed
  ∧ other_msgs h' `suffix_of` other_msgs untrimmed.
Proof.
  intros untrimmed h' Hlen. subst h'. simpl.
  unfold append_and_trim. fold untrimmed. rewrite decide_True by done.
  rewrite system_msgs_trimmed, other_msgs_trimmed.
  split; [done|]. split; [done|]. apply py_slice_from_suffix.
Qed.

Lemma add_message_trim_groups_witness :
  let untrimmed :=
    conversation_history interleaved
      ++ [new_message stamp0 "user" "B" None None] in
  let h' :=
    conversation_history (add_message stamp0 "user" "B" None interleaved).2 in
  Z.of_nat (length untrimmed) > max_history interleaved
  ∧ h' = system_msgs h' ++ other_msgs h'
  ∧ system_msgs h' = system_msgs untrimmed
  ∧ other_msgs h' `suffix_of` other_msgs untrimmed.
Proof.
  split; [vm_compute; reflexivity|].
  apply (add_message_trim_groups stamp0 "user" "B" None interleaved).
  vm_compute. reflexivity.
Defined.

Example interleaved_system_moves_forward :
  entries interleaved
    = [mkEntry "system" "S"; mkEntry "user" "A"; mkEntry "system" "T"]
  ∧ entries (add_message stamp0 "user" "B" None interleaved).2
    = [mkEntry "system" "S"; mkEntry "system" "T"; mkEntry "user" "B"].
Proof. split; reflexivity. Qed.
End Trimming.

(** ** The context window (agents/base_agent.py) *)

Section ContextWindow.
Import BaseAgent Fixtures.
Implicit Types (pending taken h : list Message) (B cur : Z).

Lemma sum_tokens_app h1 h2 :
  sum_tokens (h1 ++ h2) = sum_tokens h1 + sum_tokens h2.
Proof.
  unfold sum_tokens. induction h1 as [|x h1 IH]; simpl; [done|].
  rewrite IH. lia.
Qed.

Lemma sum_tokens_reverse h : sum_tokens (reverse h) = sum_tokens h.
Proof.
  induction h as [|x h IH]; [done|].
  rewrite reverse_cons, sum_tokens_app, IH. unfold sum_tokens; simpl. lia.
Qed.

(** What the loop computes: it takes a prefix [taken] of the pending
    (newest first) turns and stops at the first turn that does not fit. *)
Lemma context_loop_spec B pending : ∀ (acc : list Message) cur,
  ∃ taken rest,
    pending = taken ++ rest
    ∧ context_loop B pending (to_entry <$> acc) cur
        = to_entry <$> (reverse taken ++ acc)
    ∧ (taken = [] ∨ cur + sum_tokens taken ≤ B)
    ∧ (∀ m rest', rest = m :: rest' →
         cur + sum_tokens taken + token_count m > B).
Proof.
  induction pending as [|m pending IH]; intros acc cur.
  - exists [], []. repeat split; [by left|]. intros ? ? [=].
  - simpl. destruct (decide (cur + token_count m > B)) as [Hgt|Hle].
    + exists [], (m :: pending). repeat split; [by left|].
      intros ? ? [= <- <-]. unfold sum_tokens; simpl. lia.
    + destruct (IH (m :: acc) (cur + token_count m))
        as (taken & rest & -> & Hout & Hsum & Hstop).
      exists (m :: taken), rest. split; [done|]. split.
      { rewrite fmap_cons in Hout. rewrite Hout, reverse_cons, <- app_assoc. done. }
      assert (sum_tokens (m :: taken) = token_count m + sum_tokens taken)
        as Hcons by done.
      split.
      * right. rewrite Hcons. destruct Hsum as [->|Hsum]; [|lia].
        unfold sum_tokens; simpl. lia.
      * intros m' rest' Hr. rewrite Hcons.
        specialize (Hstop m' rest' Hr). lia.
Qed.

(** [max_tokens or self.max_tokens] is the argument unless that is [None]
    or [0]. *)
Lemma effective_max_tokens_given (a : Agent) (b : Z) :
  b ≠ 0 → effective_max_tokens a (Some b) = b.
Proof. intros Hb. unfold effective_max_tokens, int_or. by rewrite decide_False. Qed.

Lemma effective_max_tokens_default (a : Agent) :
  effective_max_tokens a None = BaseAgent.max_tokens a
  ∧ effective_max_tokens a (Some 0) = BaseAgent.max_tokens a.
Proof. done. Qed.

(** C4, as the code has it: the context is the image of a suffix of the
    history, oldest first, and unless it is empty the token counts of the
    turns it includes, the newest among them, sum to at most the effective
    budget [max_tokens or self.max_tokens]. *)
Theorem context_is_budgeted_suffix (a : Agent) (max_tokens : option Z) :
  ∃ included,
    included `suffix_of` conversation_history a
    ∧ get_conversation_context a max_tokens = to_entry <$> included
    ∧ (included = []
       ∨ sum_tokens included ≤ effective_max_tokens a max_tokens).
Proof.
  unfold get_conversation_context.
  destruct (context_loop_spec (effective_max_tokens a max_tokens)
              (reverse (conversation_history a)) [] 0)
    as (taken & rest & Hsplit & Hout & Hsum & _).
  exists (reverse taken). split; [|split].
  - exists (reverse rest).
    rewrite <- (reverse_involutive (conversation_history a)), Hsplit.
    by rewrite reverse_app.
  - simpl in Hout. by rewrite Hout, app_nil_r.
  - destruct Hsum as [->|Hsum]; [by left|].
    right. rewrite sum_tokens_reverse. lia.
Qed.

(** C4 fails as stated: asked for the budget 0, the agent whose own
    [max_tokens] is 4000 hands out its whole history; the turns other than
    the newest alone hold 2 tokens. *)
Lemma context_budget_counterexample :
  get_conversation_context two_turns (Some 0)
    = [mkEntry "system" "S"; mkEntry "user" "12345678";
       mkEntry "assistant" "1234"]
  ∧ sum_tokens (take 2 (conversation_history two_turns)) = 2.
Proof. split; reflexivity. Qed.

Example context_stops_at_first_misfit :
  get_conversation_context two_turns (Some 2) = [mkEntry "assistant" "1234"]
  ∧ get_conversation_context two_turns (Some 3)
    = [mkEntry "system" "S"; mkEntry "user" "12345678";
       mkEntry "assistant" "1234"].
Proof. split; reflexivity. Qed.

(** C5, as the code has it: for a history that is not empty, the context is
    empty when the newest turn alone exceeds the effective budget
    [max_tokens or self.max_tokens]; otherwise the newest turn is the last
    entry of the context. *)
Theorem context_empty_iff_newest_exceeds (a : Agent) (max_tokens : option Z)
    (older : list Message) (newest : Message) :
  conversation_history a = older ++ [newest] →
  (token_count newest > effective_max_tokens a max_tokens
     → get_conversation_context a max_tokens = [])
  ∧ (token_count newest ≤ effective_max_tokens a max_tokens
     → last (get_conversation_context a max_tokens) = Some (to_entry newest)).
Proof.
  intros Hh. unfold get_conversation_context.
  rewrite Hh, reverse_snoc. simpl. split; intros Hc.
  - by rewrite decide_True by lia.
  - rewrite decide_False by lia.
    destruct (context_loop_spec (effective_max_tokens a max_tokens)
                (reverse older) [newest] (0 + token_count newest))
      as (taken & rest & _ & Hout & _).
    simpl in Hout. rewrite Hout, fmap_app. simpl. apply last_snoc.
Qed.

Lemma context_empty_iff_newest_exceeds_witness :
  (token_count (new_message stamp0 "user" "12345678" None None)
     > effective_max_tokens long_turn (Some 1)
     → get_conversation_context long_turn (Some 1) = [])
  ∧ (token_count (new_message stamp0 "user" "12345678" None None)
       ≤ effective_max_tokens long_turn (Some 1)
     → last (get_conversation_context long_turn (Some 1))
         = Some (to_entry (new_message stamp0 "user" "12345678" None None))).
Proof.
  apply (context_empty_iff_newest_exceeds long_turn (Some 1)
           [new_message stamp0 "system" "S" None None]
           (new_message stamp0 "user" "12345678" None None)).
  reflexivity.
Defined.

(** C5 fails as stated: the newest turn of this history holds 2 tokens,
    the budget is 1, and the context is empty. *)
Lemma context_counterexample :
  entries long_turn = [mkEntry "system" "S"; mkEntry "user" "12345678"]
  ∧ get_conversation_context long_turn (Some 1) = [].
Proof. split; reflexivity. Qed.
End ContextWindow.

(** ** The calculator (mcp/tools.py) *)

Section Calculator.
Import Tools.

Lemma format_tool_output_success now nm value :
  field (format_tool_output now nm value None) "success" = Some (PBool true)
  ∧ field (format_tool_output now nm value None) "result" = Some value
  ∧ field (format_tool_output now nm value None) "error" = Some PNone.
Proof. done. Qed.

Lemma format_tool_output_failure now nm value e :
  field (format_tool_output now nm value (Some e)) "success" = Some (PBool false)
  ∧ field (format_tool_output now nm value (Some e)) "error" = Some (PStr e).
Proof. done. Qed.

Lemma all_allowed_false expression c :
  c ∈ list_ascii_of_string expression → c ∉ allowed_chars →
  all_allowed expression = false.
Proof.
  intros Hin Hout. unfold all_allowed.
  apply not_true_is_false. intros Hall.
  rewrite forallb_forall in Hall.
  apply list_elem_of_In, Hall, bool_decide_eq_true in Hin. done.
Qed.

Lemma all_allowed_true expression :
  all_allowed expression = true ↔
  ∀ c, c ∈ list_ascii_of_string expression → c ∈ allowed_chars.
Proof.
  unfold all_allowed. rewrite forallb_forall. split.
  - intros H c Hc. by apply list_elem_of_In, H, bool_decide_eq_true in Hc.
  - intros H c Hc. apply bool_decide_eq_true, H, list_elem_of_In, Hc.
Qed.

(** C6, as the code has it: with an [eval] that computes integer
    arithmetic, ["2+2*3"] yields a successful output whose result is 8;
    and whatever [eval] does, an expression with a character outside
    ["0123456789+-*/()., "] yields the failed output with the message
    about invalid characters, and [eval] is handed nothing. *)
Theorem calculator_contract (eval : string → Outcome PyVal) (now : string) :
  eval_computes_arith eval →
  calculator_execute eval now "2+2*3"
    = (format_tool_output now (PStr "calculator")
         (PDict [("expression", PStr "2+2*3"); ("result", PInt 8)]) None,
       ["2+2*3"])
  ∧ ∀ expression c,
      c ∈ list_ascii_of_string expression → c ∉ allowed_chars →
      calculator_execute eval now expression
        = (format_tool_output now (PStr "calculator") PNone
             (Some invalid_characters), []).
Proof.
  intros Heval. split.
  - unfold calculator_execute.
    replace (all_allowed "2+2*3") with true by (vm_compute; reflexivity).
    rewrite (Heval "2+2*3" 8); [done|]. vm_compute. reflexivity.
  - intros expression c Hin Hout. unfold calculator_execute.
    by rewrite (all_allowed_false expression c).
Qed.

Lemma calculator_contract_witness :
  calculator_execute arith_only_eval "t" "2+2*3"
    = (format_tool_output "t" (PStr "calculator")
         (PDict [("expression", PStr "2+2*3"); ("result", PInt 8)]) None,
       ["2+2*3"])
  ∧ ∀ expression c,
      c ∈ list_ascii_of_string expression → c ∉ allowed_chars →
      calculator_execute arith_only_eval "t" expression
        = (format_tool_output "t" (PStr "calculator") PNone
             (Some invalid_characters), []).
Proof.
  apply (calculator_contract arith_only_eval "t").
  intros e n H. unfold arith_only_eval. rewrite H. reflexivity.
Defined.

(** An expression made of allowed characters only is handed to [eval],
    once. *)
Lemma calculator_evaluates_allowed eval now expression :
  (∀ c, c ∈ list_ascii_of_string expression → c ∈ allowed_chars) →
  (calculator_execute eval now expression).2 = [expression].
Proof.
  intros Hall. apply all_allowed_true in Hall.
  unfold calculator_execute. rewrite Hall. by destruct (eval expression).
Qed.

Example calculator_rejects_import :
  calculator_execute arith_only_eval "t" "2+import"
    = (format_tool_output "t" (PStr "calculator") PNone
         (Some "Invalid characters in expression"), []).
Proof. reflexivity. Qed.

(** C6 fails as stated: the comma is no digit, operator, parenthesis or
    whitespace, yet ["1,2"] passes the check and is handed to [eval]. *)
Lemma calculator_counterexample :
  (","%char ∈ list_ascii_of_string "1,2" ∧ ","%char ∉ described_chars)
  ∧ ∀ eval now, (calculator_execute eval now "1,2").2 = ["1,2"].
Proof.
  split; [split|].
  - apply (bool_decide_unpack _). vm_compute. reflexivity.
  - apply (bool_decide_unpack _). vm_compute. reflexivity.
  - intros eval now. unfold calculator_execute.
    replace (all_allowed "1,2") with true by (vm_compute; reflexivity).
    by destruct (eval "1,2").
Qed.
End Calculator.

(** ** The registry and the dispatcher (mcp/tools.py, mcp/server.py) *)

Section Dispatch.
Import Tools MCPServer Fixtures MoreFixtures.
Implicit Types (tools : Registry) (name now : string) (parameters : PyVal).

Lemma execute_tool_returns now tools name parameters :
  ∃ out, Tools.execute_tool now tools name parameters = Returned out.
Proof.
  unfold Tools.execute_tool, get_tool. destruct (tools !! name) as [tool|]; [|eauto].
  destruct (execute tool now parameters); eauto.
Qed.

(** C8, as the code has it: [execute_tool] never raises; for a name that
    is not registered it returns the failed output saying the tool was not
    found; when the registered handler raises it returns the failed output
    with the handler's message; when the handler returns, its value is
    returned as it is, whatever it is. *)
Theorem execute_tool_contract now tools name parameters :
  (∃ out, Tools.execute_tool now tools name parameters = Returned out)
  ∧ (tools !! name = None →
       ∃ out, Tools.execute_tool now tools name parameters = Returned out
         ∧ field out "success" = Some (PBool false)
         ∧ field out "error" = Some (PStr ("Tool '" +:+ name +:+ "' not found")))
  ∧ (∀ tool e, tools !! name = Some tool →
       execute tool now parameters = Raised e →
       ∃ out, Tools.execute_tool now tools name parameters = Returned out
         ∧ field out "success" = Some (PBool false)
         ∧ field out "error" = Some (PStr e))
  ∧ (∀ tool v, tools !! name = Some tool →
       execute tool now parameters = Returned v →
       Tools.execute_tool now tools name parameters = Returned v).
Proof.
  split; [apply execute_tool_returns|].
  unfold Tools.execute_tool, get_tool. repeat split.
  - intros ->. eexists. split; [done|]. done.
  - intros tool e -> ->. eexists. split; [done|]. done.
  - by intros tool v -> ->.
Qed.

(** C8 fails as stated: a handler that returns 42 gives an output with no
    [success] entry, and a handler that reports its own failure, as the
    built-in tools do, gives [success = False] without raising. *)
Lemma execute_tool_counterexample :
  (execute answer_tool "t" (PDict []) = Returned (PInt 42)
   ∧ Tools.execute_tool "t" plain_tools "answer" (PDict []) = Returned (PInt 42)
   ∧ field (PInt 42) "success" = None)
  ∧ (∃ out,
       execute quiet_tool "t" (PDict []) = Returned out
       ∧ Tools.execute_tool "t" plain_tools "quiet" (PDict []) = Returned out
       ∧ field out "success" = Some (PBool false)).
Proof.
  split; [repeat split; vm_compute; reflexivity|].
  eexists. repeat split; vm_compute; reflexivity.
Qed.

Example execute_tool_examples :
  Tools.execute_tool "t" two_tools "nope" (PDict [])
    = Returned (format_tool_output "t" (PStr "nope") PNone
                  (Some "Tool 'nope' not found"))
  ∧ Tools.execute_tool "t" two_tools "broken" (PDict [])
    = Returned (format_tool_output "t" (PStr "broken") PNone (Some "boom"))
  ∧ Tools.execute_tool "t" two_tools "echo" (PDict [("n", PInt 7)])
    = Returned (format_tool_output "t" (PStr "echo")
                  (PDict [("n", PInt 7)]) None)
  ∧ Tools.execute_tool "t" two_tools "echo" (PInt 7)
    = Returned (format_tool_output "t" (PStr "echo") PNone
                  (Some "argument after ** must be a mapping, not int")).
Proof. repeat split; vm_compute; reflexivity. Qed.
End Dispatch.

Section Batch.
Import MCPServer Fixtures.
Variable json_loads : string → Outcome PyVal.
Implicit Types (tools : Tools.Registry) (now : string) (tc : ToolCall).

Lemma truthy_name name : name ≠ "" → truthy (PStr name) = true.
Proof.
  intros Hne. simpl. apply negb_true_iff, String.eqb_neq. done.
Qed.

Lemma execute_tools_loop_spec now tools (calls : list ToolCall) :
  Forall (well_formed json_loads) calls → ∀ acc,
  ∃ results,
    execute_tools_loop json_loads now tools calls acc = Returned (acc ++ results)
    ∧ Forall2 (result_of json_loads now tools)
        (filter (λ tc, has_name tc) calls) results.
Proof.
  induction 1 as [|tc calls Hwf _ IH]; intros acc.
  - exists []. by rewrite app_nil_r.
  - destruct Hwf as [(n & Hname & Hn)|(name & p & Hd)].
    + assert (has_name tc = false) as Hhas
        by (unfold has_name; by rewrite Hname).
      rewrite filter_cons_False by (cbn beta; rewrite Hhas; exact id).
      simpl. rewrite Hname, Hn. simpl. apply IH.
    + pose proof Hd as (Hname & Hne & Hp).
      assert (has_name tc = true) as Hhas
        by (unfold has_name; rewrite Hname; by apply truthy_name).
      rewrite filter_cons_True by (cbn beta; rewrite Hhas; exact I).
      cbn [execute_tools_loop]. rewrite Hname, truthy_name, Hp by done.
      unfold MCPServer.execute_tool. simpl.
      destruct (execute_tool_returns now tools name p) as [r Hr].
      rewrite Hr. destruct (IH (acc ++ [r])) as (rs & Hrs & Hall).
      exists (r :: rs). split.
      * by rewrite Hrs, <- app_assoc.
      * constructor; [|done]. by exists name, p.
Qed.

End Batch.

Section BatchExamples.
Import MCPServer Fixtures.


Example mixed_batch_results :
  execute_tools json_loads0 "t" two_tools mixed_batch
    = Returned
        [format_tool_output "t" (PStr "broken") PNone (Some "boom");
         format_tool_output "t" (PStr "nope") PNone
           (Some "Tool 'nope' not found");
         format_tool_output "t" (PStr "echo") (PDict []) None].
Proof. vm_compute. reflexivity. Qed.


(** Arguments that [json.loads] rejects end the whole batch. *)
Example unreadable_arguments_abort_the_batch :
  execute_tools json_loads0 "t" two_tools
    [tool_call "echo" (PDict []); tool_call "echo" (PStr "{")]
    = Raised "Expecting value: line 1 column 1 (char 0)".
Proof. vm_compute. reflexivity. Qed.
End BatchExamples.

(** ** The provider fallback (llm/llm_factory.py) *)

Section Fallback.
Import LLMFactory Fixtures.
Context {Response : Type}.
Implicit Types (settings : Settings) (f : Factory) (p : LLMProvider)
  (chat : Client → Outcome Response).

Lemma value_inj p q : value p = value q → p = q.
Proof. by destruct p, q. Qed.

Lemma value_nonempty p : value p ≠ "".
Proof. by destruct p. Qed.

Lemma cache_consistent_cache f p :
  cache_consistent f → cache_consistent (cache f (value p) (client_of p)).
Proof.
  intros Hc provider c. unfold cache; simpl.
  destruct (decide (value p = provider)) as [<-|Hne].
  - rewrite lookup_insert_eq. intros [= <-]. by exists p.
  - rewrite lookup_insert_ne by done. apply Hc.
Qed.

(** With its key present, the client of [p] is had, from the cache or
    freshly built. *)
Lemma get_client_configured settings provider f p :
  str_or provider (value (default_provider f)) = value p →
  configured settings p = true →
  cache_consistent f →
  ∃ f', get_client settings provider f = (Returned (client_of p), f')
    ∧ cache_consistent f'
    ∧ default_provider f' = default_provider f.
Proof.
  intros Hp Hkey Hc. unfold get_client. rewrite Hp.
  destruct (clients f !! value p) as [c|] eqn:Hlook.
  - destruct (Hc _ _ Hlook) as (q & Hq & ->).
    apply value_inj in Hq as <-. by exists f.
  - destruct p; simpl in Hkey |- *.
    + rewrite Hkey. eexists. split; [done|]. split; [|done].
      apply (cache_consistent_cache f CLAUDE Hc).
    + rewrite Hkey. eexists. split; [done|]. split; [|done].
      apply (cache_consistent_cache f OPENAI Hc).
Qed.

(** With both keys present the fallback client is that of the provider
    other than the class default, whichever provider was preferred. *)
Lemma get_fallback_client_both settings f :
  configured settings CLAUDE = true →
  configured settings OPENAI = true →
  cache_consistent f →
  ∃ f', get_fallback_client settings f
          = (Returned (other_client (default_provider f)), f')
    ∧ cache_consistent f'
    ∧ default_provider f' = default_provider f.
Proof.
  intros Hc Ho Hcache. unfold get_fallback_client, get_available_providers.
  simpl in Hc, Ho. rewrite Hc, Ho. simpl.
  destruct (default_provider f) eqn:Hd; simpl.
  - destruct (get_client_configured settings (Some "openai") f OPENAI)
      as (f' & -> & ? & ?); [done..|].
    exists f'. repeat split; [done|congruence].
  - destruct (get_client_configured settings (Some "claude") f CLAUDE)
      as (f' & -> & ? & ?); [done..|].
    exists f'. repeat split; [done|congruence].
Qed.

(** When the failing provider is the class default, the other one
    answers, after exactly one retry. *)
Lemma fallback_from_default settings f chat provider e r :
  configured settings CLAUDE = true →
  configured settings OPENAI = true →
  cache_consistent f →
  str_or provider (value (default_provider f)) = value (default_provider f) →
  chat (client_of (default_provider f)) = Raised e →
  chat (other_client (default_provider f)) = Returned r →
  observed (chat_with_fallback chat settings provider f)
    = (Returned r,
       [client_of (default_provider f); other_client (default_provider f)]).
Proof.
  intros Hc Ho Hcache Hp Hfail Hok. unfold chat_with_fallback.
  destruct (get_client_configured settings provider f (default_provider f))
    as (f1 & -> & Hcache1 & Hd1); [done | by destruct (default_provider f) | done |].
  rewrite Hfail.
  destruct (get_fallback_client_both settings f1 Hc Ho Hcache1)
    as (f2 & -> & _ & _).
  rewrite Hd1, Hok. done.
Qed.

(** When the failing provider was preferred over the class default, the
    fallback is that same provider: it is tried twice and its failure is
    what the caller gets. *)
Lemma fallback_from_preferred settings f chat e :
  configured settings CLAUDE = true →
  configured settings OPENAI = true →
  cache_consistent f →
  chat (other_client (default_provider f)) = Raised e →
  observed (chat_with_fallback chat settings
              (Some (value (match default_provider f with
                            | CLAUDE => OPENAI | OPENAI => CLAUDE end))) f)
    = (Raised e,
       [other_client (default_provider f); other_client (default_provider f)]).
Proof.
  intros Hc Ho Hcache Hfail. unfold chat_with_fallback.
  set (q := match default_provider f with CLAUDE => OPENAI | OPENAI => CLAUDE end).
  assert (client_of q = other_client (default_provider f)) as Hq
    by (subst q; by destruct (default_provider f)).
  destruct (get_client_configured settings (Some (value q)) f q)
    as (f1 & -> & Hcache1 & Hd1).
  { simpl. by rewrite decide_False by apply value_nonempty. }
  { by destruct q. }
  { done. }
  rewrite Hq, Hfail.
  destruct (get_fallback_client_both settings f1 Hc Ho Hcache1)
    as (f2 & -> & _ & _).
  rewrite Hd1, Hfail. done.
Qed.

(** With no key present and nothing cached, the call fails with the
    error of [get_fallback_client], and no client is tried. *)
Lemma no_provider_configured settings f chat provider :
  configured settings CLAUDE = false →
  configured settings OPENAI = false →
  clients f = ∅ →
  chat_with_fallback chat settings provider f = (Raised no_providers, f, []).
Proof.
  intros Hc Ho Hempty. simpl in Hc, Ho.
  assert (∃ e, get_client settings provider f = (Raised e, f)) as [e He].
  { unfold get_client. rewrite Hempty, lookup_empty, Hc, Ho.
    repeat case_decide; eauto. }
  unfold chat_with_fallback. rewrite He.
  unfold get_fallback_client, get_available_providers. by rewrite Hc, Ho.
Qed.
End Fallback.

Section FallbackExamples.
Import LLMFactory Fixtures.

Lemma initial_consistent : cache_consistent initial.
Proof. intros provider c. unfold initial; simpl. by rewrite lookup_empty. Qed.

(** C9 at the failing input: both keys present, Claude the class default,
    OpenAI preferred and failing while Claude would answer.  The fallback
    is OpenAI again, and its failure reaches the caller. *)
Theorem fallback_retries_the_failed_provider :
  observed (chat_with_fallback openai_down both_keys (Some "openai") initial)
    = (Raised "openai: service unavailable", [OpenAIClient; OpenAIClient]).
Proof.
  apply (fallback_from_preferred both_keys initial openai_down);
    [done | done | apply initial_consistent | done].
Qed.

Lemma fallback_from_default_witness :
  observed (chat_with_fallback claude_down both_keys None initial)
    = (Returned "hello from openai", [ClaudeClient; OpenAIClient]).
Proof.
  apply (fallback_from_default both_keys initial claude_down None
           "claude: service unavailable" "hello from openai");
    [reflexivity | reflexivity | apply initial_consistent
    | reflexivity | reflexivity | reflexivity].
Defined.

Lemma no_provider_configured_witness :
  chat_with_fallback claude_down no_keys None initial
    = (Raised "No LLM providers configured", initial, []).
Proof.
  apply (no_provider_configured no_keys initial claude_down None);
    reflexivity.
Defined.
End FallbackExamples.

(** ** Text helpers (utils/helpers.py, rag/retriever.py) *)

Section Strings.
Import Helpers.

Lemma length_list_ascii s :
  length (list_ascii_of_string s) = String.length s.
Proof. induction s as [|c s IH]; simpl; [done|]. by rewrite IH. Qed.

Lemma length_string_of_list l :
  String.length (string_of_list_ascii l) = length l.
Proof. induction l as [|c l IH]; simpl; [done|]. by rewrite IH. Qed.

Lemma list_ascii_app s1 s2 :
  list_ascii_of_string (s1 +:+ s2)
    = list_ascii_of_string s1 ++ list_ascii_of_string s2.
Proof. induction s1 as [|c s1 IH]; simpl; [done|]. by rewrite IH. Qed.

(** ["".join(chunks)], on characters. *)
Lemma list_ascii_concat (chunks : list string) :
  list_ascii_of_string (String.concat "" chunks)
    = mjoin (list_ascii_of_string <$> chunks).
Proof.
  induction chunks as [|c chunks IH]; [done|].
  destruct chunks as [|c' chunks].
  - simpl. by rewrite app_nil_r.
  - change (String.concat "" (c :: c' :: chunks))
      with (c +:+ "" +:+ String.concat "" (c' :: chunks)).
    rewrite list_ascii_app, (list_ascii_app ""), IH. done.
Qed.

Lemma py_slice_forward {A} (l : list A) lo hi :
  0 ≤ lo → lo ≤ hi →
  py_slice l lo hi = take (Z.to_nat (hi - lo)) (drop (Z.to_nat lo) l).
Proof.
  intros Hlo Hhi. unfold py_slice.
  rewrite !decide_False by lia.
  destruct (decide (hi ≤ Z.of_nat (length l))) as [Hin|Hout].
  - by replace (Z.min hi _ - Z.min lo _) with (hi - lo) by lia;
      replace (Z.min lo _) with lo by lia.
  - destruct (decide (lo ≤ Z.of_nat (length l))) as [Hlo'|Hlo'].
    + replace (Z.min lo _) with lo by lia.
      rewrite !take_ge; [done|rewrite length_drop; lia..].
    + rewrite !drop_ge by lia. by rewrite !take_nil.
Qed.

Lemma py_slice_sublist {A} (l : list A) lo hi : py_slice l lo hi `sublist_of` l.
Proof.
  unfold py_slice. etrans; [apply sublist_take|apply sublist_drop].
Qed.
End Strings.

Section Chunking.
Import Helpers.
Implicit Types (text : string) (size overlap start : Z).

Lemma chunk_count_zero n start step :
  0 < step → n ≤ start → chunk_count n start step = 0%nat.
Proof.
  intros Hs Hn. unfold chunk_count.
  assert ((n - start + step - 1) `div` step ≤ 0); [|lia].
  apply Z.lt_succ_r, Z.div_lt_upper_bound; lia.
Qed.

Lemma chunk_count_succ n start step :
  0 < step → start < n →
  chunk_count n start step = S (chunk_count n (start + step) step).
Proof.
  intros Hs Hn. unfold chunk_count.
  replace (n - start + step - 1) with ((n - (start + step) + step - 1) + 1 * step)
    by lia.
  rewrite Z.div_add by lia.
  assert (0 ≤ (n - (start + step) + step - 1) `div` step)
    by (apply Z.div_pos; lia).
  lia.
Qed.

Lemma chunk_count_bound n step :
  0 < step → 0 ≤ n → (chunk_count n 0 step ≤ Z.to_nat n)%nat.
Proof.
  intros Hs Hn. unfold chunk_count.
  assert ((n - 0 + step - 1) `div` step ≤ n); [|lia].
  apply Z.lt_succ_r, Z.div_lt_upper_bound; nia.
Qed.

(** The loop, unrolled: one window per multiple of the step. *)
Lemma chunk_loop_windows text size overlap fuel : ∀ start acc,
  0 < size - overlap →
  (chunk_count (len text) start (size - overlap) < fuel)%nat →
  chunk_loop fuel text size overlap start acc
    = Some (acc ++
        ((λ k : nat,
            str_slice text (start + Z.of_nat k * (size - overlap))
              (start + Z.of_nat k * (size - overlap) + size))
           <$> seq 0 (chunk_count (len text) start (size - overlap)))).
Proof.
  induction fuel as [|fuel IH]; intros start acc Hstep Hfuel; [lia|].
  simpl. case_decide as Hlt.
  - rewrite chunk_count_succ in Hfuel |- * by done.
    replace (start + size - overlap) with (start + (size - overlap)) by lia.
    rewrite IH by (done || lia). f_equal.
    rewrite <- app_assoc. f_equal. simpl. f_equal.
    + f_equal; lia.
    + rewrite <- fmap_S_seq, <- list_fmap_compose. apply list_fmap_ext.
      intros _ k _. simpl. f_equal; lia.
  - rewrite chunk_count_zero by lia. simpl. by rewrite app_nil_r.
Qed.

(** X4: a text longer than [chunk_size], cut with a step
    [chunk_size - overlap] that is positive, gives after finitely many
    rounds the windows [text[k*step : k*step + chunk_size]] for
    [k = 0 .. m-1], [m] being the least number with [m * step >= len]. *)
Theorem chunk_text_windows (fuel : nat) text size overlap :
  len text > size →
  0 < size - overlap →
  (chunk_count (len text) 0 (size - overlap) < fuel)%nat →
  chunk_text fuel text size overlap
    = Some ((λ k : nat,
               str_slice text (Z.of_nat k * (size - overlap))
                 (Z.of_nat k * (size - overlap) + size))
              <$> seq 0 (chunk_count (len text) 0 (size - overlap))).
Proof.
  intros Hlong Hstep Hfuel. unfold chunk_text.
  rewrite decide_False by lia.
  by rewrite chunk_loop_windows.
Qed.

Lemma chunk_text_windows_witness :
  chunk_text 6 "0123456789" 4 2
    = Some ((λ k : nat, str_slice "0123456789" (Z.of_nat k * (4 - 2))
                          (Z.of_nat k * (4 - 2) + 4))
              <$> seq 0 (chunk_count (len "0123456789") 0 (4 - 2))).
Proof.
  apply (chunk_text_windows 6 "0123456789" 4 2);
    [reflexivity | reflexivity | vm_compute; lia].
Defined.

Lemma chars_str_slice text lo hi :
  0 ≤ lo → lo ≤ hi →
  list_ascii_of_string (str_slice text lo hi)
    = take (Z.to_nat (hi - lo)) (drop (Z.to_nat lo) (list_ascii_of_string text)).
Proof.
  intros. unfold str_slice.
  by rewrite list_ascii_of_string_of_list_ascii, py_slice_forward.
Qed.

Lemma len_str_slice text lo hi :
  0 ≤ lo → lo ≤ hi →
  len (str_slice text lo hi) = Z.max 0 (Z.min (hi - lo) (len text - lo)).
Proof.
  intros. unfold len.
  rewrite <- (length_list_ascii (str_slice _ _ _)), chars_str_slice by done.
  rewrite length_take, length_drop, length_list_ascii. lia.
Qed.

(** Without overlap the loop hands out the text piece by piece. *)
Lemma chunk_loop_lossless text size fuel : ∀ start acc,
  0 < size → 0 ≤ start →
  (Z.to_nat (len text - start) < fuel)%nat →
  ∃ chunks,
    chunk_loop fuel text size 0 start acc = Some chunks
    ∧ mjoin (list_ascii_of_string <$> chunks)
        = mjoin (list_ascii_of_string <$> acc)
            ++ drop (Z.to_nat start) (list_ascii_of_string text).
Proof.
  induction fuel as [|fuel IH]; intros start acc Hsize Hstart Hfuel; [lia|].
  simpl. case_decide as Hlt.
  - destruct (IH (start + size - 0) (acc ++ [str_slice text start (start + size)]))
      as (chunks & -> & Hjoin); [lia..|].
    exists chunks. split; [done|]. rewrite Hjoin.
    rewrite fmap_app, join_app, <- app_assoc. f_equal. simpl.
    rewrite app_nil_r, chars_str_slice by lia.
    replace (Z.to_nat (start + size - 0)) with (Z.to_nat start + Z.to_nat size)%nat
      by lia.
    replace (Z.to_nat (start + size - start)) with (Z.to_nat size) by lia.
    rewrite <- drop_drop. apply take_drop.
  - exists acc. split; [done|].
    rewrite drop_ge; [by rewrite app_nil_r|].
    rewrite length_list_ascii. unfold len in Hlt. lia.
Qed.

(** X5: with no overlap and a positive [chunk_size], [chunk_text] ends
    and its chunks, joined, are the text. *)
Theorem chunk_text_lossless (fuel : nat) text size :
  0 < size →
  (String.length text < fuel)%nat →
  ∃ chunks,
    chunk_text fuel text size 0 = Some chunks
    ∧ String.concat "" chunks = text.
Proof.
  intros Hsize Hfuel. unfold chunk_text. case_decide as Hshort.
  - exists [text]. done.
  - destruct (chunk_loop_lossless text size fuel 0 [] Hsize)
      as (chunks & -> & Hjoin); [lia | unfold len; lia |].
    exists chunks. split; [done|].
    rewrite <- (string_of_list_ascii_of_string (String.concat "" chunks)).
    rewrite list_ascii_concat, Hjoin. simpl.
    apply string_of_list_ascii_of_string.
Qed.

Lemma chunk_text_lossless_witness :
  ∃ chunks,
    chunk_text 11 "0123456789" 4 0 = Some chunks
    ∧ String.concat "" chunks = "0123456789".
Proof.
  apply (chunk_text_lossless 11 "0123456789" 4); [reflexivity | vm_compute; lia].
Defined.

Lemma chunk_loop_stuck text size overlap fuel : ∀ start acc,
  size - overlap ≤ 0 → start < len text →
  chunk_loop fuel text size overlap start acc = None.
Proof.
  induction fuel as [|fuel IH]; intros start acc Hstep Hstart; [done|].
  simpl. rewrite decide_True by done. apply IH; lia.
Qed.

(** X6: when [overlap] is at least [chunk_size] and the text is longer
    than [chunk_size], the loop never advances: no number of rounds ends
    it. *)
Theorem chunk_text_never_ends (fuel : nat) text size overlap :
  size ≤ overlap →
  len text > size →
  text ≠ "" →
  chunk_text fuel text size overlap = None.
Proof.
  intros Hstep Hlong Hne. unfold chunk_text.
  rewrite decide_False by lia.
  apply chunk_loop_stuck; [lia|].
  unfold len. destruct text; [done|simpl; lia].
Qed.

Lemma chunk_text_never_ends_witness :
  chunk_text 1000 "0123456789" 4 4 = None.
Proof.
  apply (chunk_text_never_ends 1000 "0123456789" 4 4);
    [reflexivity | reflexivity | discriminate].
Defined.

Lemma chunk_count_lt n step (k : nat) :
  0 < step → (k < chunk_count n 0 step)%nat → Z.of_nat k * step < n.
Proof.
  intros Hs Hk. unfold chunk_count in Hk.
  pose proof (Z.mul_div_le (n - 0 + step - 1) step Hs). nia.
Qed.

(** X7: for [0 <= overlap < chunk_size], [chunk_text] ends, no chunk is
    longer than [chunk_size], and no chunk is empty unless the text is. *)
Theorem chunk_text_sizes (fuel : nat) text size overlap :
  0 ≤ overlap < size →
  (String.length text < fuel)%nat →
  ∃ chunks,
    chunk_text fuel text size overlap = Some chunks
    ∧ Forall (λ c, len c ≤ size) chunks
    ∧ (text ≠ "" → Forall (λ c, c ≠ "") chunks).
Proof.
  intros Hov Hfuel. unfold chunk_text. case_decide as Hshort.
  - exists [text]. repeat split; [by constructor|].
    intros Hne. by constructor.
  - assert (0 ≤ len text) by (unfold len; lia).
    pose proof (chunk_count_bound (len text) (size - overlap)) as Hb.
    rewrite chunk_loop_windows by (unfold len in *; lia).
    eexists. split; [done|]. simpl.
    assert (∀ k : nat, (k < chunk_count (len text) 0 (size - overlap))%nat →
              1 ≤ len (str_slice text (Z.of_nat k * (size - overlap))
                         (Z.of_nat k * (size - overlap) + size)) ≤ size) as Hk.
    { intros k Hlt. apply chunk_count_lt in Hlt; [|lia].
      rewrite len_str_slice by nia. lia. }
    split; [|intros _]; apply Forall_fmap, Forall_forall;
      intros k Hin%elem_of_seq; specialize (Hk k ltac:(lia)); simpl.
    + replace (0 + _) with (Z.of_nat k * (size - overlap)) by lia. lia.
    + intros Heq. replace (0 + _) with (Z.of_nat k * (size - overlap)) in Heq by lia.
      rewrite Heq in Hk. unfold len in Hk. simpl in Hk. lia.
Qed.

Lemma chunk_text_sizes_witness :
  ∃ chunks,
    chunk_text 11 "0123456789" 4 2 = Some chunks
    ∧ Forall (λ c, len c ≤ 4) chunks
    ∧ ("0123456789" ≠ "" → Forall (λ c, c ≠ "") chunks).
Proof.
  apply (chunk_text_sizes 11 "0123456789" 4 2); [lia | vm_compute; lia].
Defined.

Example chunk_text_overlapping :
  chunk_text 6 "0123456789" 4 2
    = Some ["0123"; "2345"; "4567"; "6789"; "89"].
Proof. reflexivity. Qed.
End Chunking.

Section Sanitizing.
Import Helpers.
Implicit Types (l : list ascii) (text : string).

Lemma drop_while_suffix {A} (p : A → bool) (l : list A) :
  drop_while p l `suffix_of` l.
Proof.
  induction l as [|x l IH]; simpl; [done|].
  destruct (p x); [by apply suffix_cons_r|done].
Qed.

Lemma drop_while_head {A} (p : A → bool) (l : list A) x :
  head (drop_while p l) = Some x → p x = false.
Proof.
  induction l as [|y l IH]; simpl; [done|].
  destruct (p y) eqn:Hy; [done|]. simpl. by intros [= <-].
Qed.

Lemma drop_while_id {A} (p : A → bool) (l : list A) :
  (∀ x, head l = Some x → p x = false) → drop_while p l = l.
Proof. destruct l as [|y l]; simpl; [done|]. intros H. by rewrite H. Qed.

Lemma suffix_last {A} (l1 l2 : list A) x :
  l1 `suffix_of` l2 → last l1 = Some x → last l2 = Some x.
Proof.
  intros [k ->] Hl. destruct l1 as [|y l1 _] using rev_ind; [done|].
  rewrite last_snoc in Hl. rewrite app_assoc, last_snoc. done.
Qed.

Lemma strip_chars_segment l : ∃ pre suf, l = pre ++ strip_chars l ++ suf.
Proof.
  unfold strip_chars.
  destruct (drop_while_suffix is_space l) as [pre Hpre].
  destruct (drop_while_suffix is_space (reverse (drop_while is_space l)))
    as [suf Hsuf].
  exists pre, (reverse suf). rewrite Hpre at 1. f_equal.
  rewrite <- reverse_app, <- Hsuf. by rewrite reverse_involutive.
Qed.

Lemma strip_chars_sublist l : strip_chars l `sublist_of` l.
Proof.
  destruct (strip_chars_segment l) as (pre & suf & Heq). rewrite Heq at 2.
  by apply sublist_inserts_l, sublist_inserts_r.
Qed.

Lemma filter_id {A} (P : A → Prop) `{∀ x, Decision (P x)} (l : list A) :
  Forall P l → filter P l = l.
Proof.
  induction 1 as [|x l' Hx _ IH]; [done|].
  rewrite filter_cons, decide_True by done. by rewrite IH.
Qed.

Lemma strip_chars_trimmed l : trimmed_chars (strip_chars l).
Proof.
  unfold strip_chars. split; intros c Hc.
  - rewrite head_reverse in Hc.
    eapply suffix_last in Hc; [|apply drop_while_suffix].
    rewrite last_reverse in Hc. by apply drop_while_head in Hc.
  - rewrite last_reverse in Hc. by apply drop_while_head in Hc.
Qed.

Lemma strip_chars_id l : trimmed_chars l → strip_chars l = l.
Proof.
  intros [Hh Hl]. unfold strip_chars.
  rewrite (drop_while_id _ l) by done.
  rewrite drop_while_id; [apply reverse_involutive|].
  intros c. rewrite head_reverse. apply Hl.
Qed.

Lemma chars_py_strip text :
  list_ascii_of_string (py_strip text) = strip_chars (list_ascii_of_string text).
Proof. unfold py_strip. apply list_ascii_of_string_of_list_ascii. Qed.

Lemma chars_remove_nul text :
  list_ascii_of_string (remove_nul text)
    = filter (λ c, c ≠ NUL) (list_ascii_of_string text).
Proof. unfold remove_nul. apply list_ascii_of_string_of_list_ascii. Qed.

Lemma truncated_sublist text max_length :
  list_ascii_of_string (truncated text max_length)
    `sublist_of` filter (λ c, c ≠ NUL) (list_ascii_of_string text).
Proof.
  unfold truncated. rewrite <- chars_remove_nul. case_decide; [|done].
  unfold str_slice. rewrite list_ascii_of_string_of_list_ascii.
  apply py_slice_sublist.
Qed.

Lemma chars_sanitize text max_length :
  list_ascii_of_string (sanitize_input text max_length)
    = strip_chars (list_ascii_of_string (truncated text max_length)).
Proof. unfold sanitize_input. by rewrite chars_py_strip. Qed.

Lemma sanitize_sublist_filtered text (max_length : Z) :
  list_ascii_of_string (sanitize_input text max_length)
    `sublist_of` filter (λ c, c ≠ NUL) (list_ascii_of_string text).
Proof.
  rewrite chars_sanitize.
  etrans; [apply strip_chars_sublist|apply truncated_sublist].
Qed.

Lemma sanitize_no_nul text (max_length : Z) :
  NUL ∉ list_ascii_of_string (sanitize_input text max_length).
Proof.
  intros Hin. eapply elem_of_sublist in Hin; [|apply sanitize_sublist_filtered].
  by apply list_elem_of_filter in Hin as [? _].
Qed.

Lemma sanitize_trimmed text (max_length : Z) :
  trimmed_chars (list_ascii_of_string (sanitize_input text max_length)).
Proof. rewrite chars_sanitize. apply strip_chars_trimmed. Qed.

Lemma truncated_length text (max_length : Z) :
  0 ≤ max_length → len (truncated text max_length) ≤ max_length.
Proof.
  intros Hmax. unfold truncated. case_decide; [|lia].
  rewrite len_str_slice by lia. lia.
Qed.

Lemma sanitize_chars_length text (max_length : Z) :
  0 ≤ max_length →
  (length (list_ascii_of_string (sanitize_input text max_length))
     ≤ Z.to_nat max_length)%nat.
Proof.
  intros Hmax. rewrite chars_sanitize.
  pose proof (sublist_length _ _
    (strip_chars_sublist (list_ascii_of_string (truncated text max_length)))) as H.
  pose proof (truncated_length text max_length Hmax) as Ht.
  unfold len in Ht. rewrite <- length_list_ascii in Ht. lia.
Qed.

(** X8: [sanitize_input] only removes characters: its result is a
    subsequence of the input, holds no null character and neither starts
    nor ends with whitespace. *)
Theorem sanitize_input_clean text (max_length : Z) :
  (list_ascii_of_string (sanitize_input text max_length)
     `sublist_of` list_ascii_of_string text)
  ∧ (NUL ∉ list_ascii_of_string (sanitize_input text max_length))
  ∧ trimmed_chars (list_ascii_of_string (sanitize_input text max_length)).
Proof.
  split; [|split].
  - etrans; [apply sanitize_sublist_filtered|]. apply sublist_filter.
  - apply sanitize_no_nul.
  - apply sanitize_trimmed.
Qed.

(** X9: for a [max_length] that is not negative the result is at most
    [max_length] characters long. *)
Theorem sanitize_input_length text (max_length : Z) :
  0 ≤ max_length →
  len (sanitize_input text max_length) ≤ max_length.
Proof.
  intros Hmax. unfold len.
  pose proof (sanitize_chars_length text max_length Hmax) as H.
  rewrite length_list_ascii in H. lia.
Qed.

Lemma sanitize_input_length_witness :
  len (sanitize_input "  abc  " 4) ≤ 4.
Proof. apply (sanitize_input_length "  abc  " 4). lia. Defined.

Lemma sanitize_fixed text (max_length : Z) :
  NUL ∉ list_ascii_of_string text →
  len text ≤ max_length →
  trimmed_chars (list_ascii_of_string text) →
  sanitize_input text max_length = text.
Proof.
  intros Hnul Hlen Htrim.
  assert (remove_nul text = text) as Hrm.
  { unfold remove_nul.
    rewrite filter_id; [apply string_of_list_ascii_of_string|].
    apply Forall_forall. intros c Hc ->. done. }
  unfold sanitize_input. rewrite Hrm, decide_False by lia.
  unfold py_strip. rewrite strip_chars_id by done.
  apply string_of_list_ascii_of_string.
Qed.

(** X10: for a [max_length] that is not negative, sanitizing a sanitized
    text changes nothing. *)
Theorem sanitize_input_idempotent text (max_length : Z) :
  0 ≤ max_length →
  sanitize_input (sanitize_input text max_length) max_length
    = sanitize_input text max_length.
Proof.
  intros Hmax. apply sanitize_fixed.
  - apply sanitize_no_nul.
  - pose proof (sanitize_chars_length text max_length Hmax) as H.
    rewrite length_list_ascii in H. unfold len. lia.
  - apply sanitize_trimmed.
Qed.

Lemma sanitize_input_idempotent_witness :
  sanitize_input (sanitize_input "  abc  " 4) 4 = sanitize_input "  abc  " 4.
Proof. apply (sanitize_input_idempotent "  abc  " 4). lia. Defined.

Example sanitize_input_truncates_before_stripping :
  sanitize_input "  abc  " 4 = "ab"
  ∧ sanitize_input "abcdef" (-2) = "abcd".
Proof. split; reflexivity. Qed.
End Sanitizing.

Section Preprocessing.
Import Helpers Retriever.
Implicit Types (l cur w : list ascii) (words : list (list ascii)).

Lemma split_ws_words cur l :
  Forall (λ c, is_space c = false) cur →
  Forall word (split_ws cur l).
Proof.
  revert cur. induction l as [|c l IH]; intros cur Hcur; simpl.
  - destruct cur as [|x cur]; [done|]. constructor; [|done]. split.
    + intros Hnil%(f_equal length). rewrite length_reverse in Hnil. done.
    + by apply Forall_reverse.
  - destruct (is_space c) eqn:Hc.
    + destruct cur as [|x cur]; [by apply IH|].
      constructor; [|by apply IH]. split.
      * intros Hnil%(f_equal length). rewrite length_reverse in Hnil. done.
      * by apply Forall_reverse.
    + apply IH. by constructor.
Qed.

Lemma split_ws_keeps (Q : ascii → Prop) cur l :
  Forall Q cur → Forall Q l → Forall (Forall Q) (split_ws cur l).
Proof.
  revert cur. induction l as [|c l IH]; intros cur Hcur Hl; simpl.
  - destruct cur; [done|]. constructor; [|done]. by apply Forall_reverse.
  - apply Forall_cons in Hl as [Hc Hl]. destruct (is_space c).
    + destruct cur; [by apply IH|].
      constructor; [by apply Forall_reverse|by apply IH].
    + apply IH; [by constructor|done].
Qed.

Lemma split_ws_word cur w l :
  Forall (λ c, is_space c = false) w →
  split_ws cur (w ++ l) = split_ws (reverse w ++ cur) l.
Proof.
  revert cur. induction w as [|c w IH]; intros cur Hw; [done|].
  apply Forall_cons in Hw as [Hc Hw]. simpl. rewrite Hc, IH by done.
  by rewrite reverse_cons, <- app_assoc.
Qed.

Lemma split_ws_space cur l :
  split_ws cur (" "%char :: l)
    = match cur with
      | [] => split_ws [] l
      | _ => reverse cur :: split_ws [] l
      end.
Proof. done. Qed.

(** Splitting what [join_space] made of words gives the words back. *)
Lemma split_ws_join words :
  Forall word words → split_ws [] (join_space words) = words.
Proof.
  induction 1 as [|w words [Hne Hw] Hwords IH]; [done|].
  assert (∀ l, split_ws [] (w ++ l) = split_ws (reverse w) l) as Hstart.
  { intros l. by rewrite split_ws_word, app_nil_r. }
  assert (reverse w ≠ []) as Hrev.
  { intros Hnil%(f_equal length). rewrite length_reverse in Hnil.
    by destruct w. }
  destruct words as [|w' words].
  - simpl. rewrite <- (app_nil_r w) at 1. rewrite Hstart. simpl.
    destruct (reverse w) eqn:Hr; [done|]. by rewrite <- Hr, reverse_involutive.
  - change (join_space (w :: w' :: words))
      with (w ++ " "%char :: join_space (w' :: words)).
    rewrite Hstart, split_ws_space.
    destruct (reverse w) eqn:Hr; [done|].
    rewrite <- Hr, reverse_involutive. by rewrite IH.
Qed.

Lemma join_space_length cur l :
  (length (join_space (split_ws cur l)) ≤ length cur + length l)%nat.
Proof.
  assert (∀ w words, (length (join_space (w :: words))
                      ≤ length w + 1 + length (join_space words))%nat) as Hcons.
  { intros w [|w' words]; simpl; [lia|]. rewrite length_app. simpl. lia. }
  revert cur. induction l as [|c l IH]; intros cur; simpl.
  - destruct cur; simpl; [lia|]. rewrite length_reverse. simpl. lia.
  - destruct (is_space c).
    + destruct cur as [|x cur]; [specialize (IH []); simpl in IH; lia|].
      etrans; [apply Hcons|]. rewrite length_reverse.
      specialize (IH []). simpl in *. lia.
    + etrans; [apply IH|]. simpl. lia.
Qed.

Lemma join_space_keeps (Q : ascii → Prop) words :
  Q " "%char → Forall (Forall Q) words → Forall Q (join_space words).
Proof.
  intros Hsp. induction 1 as [|w words Hw _ IH]; [done|].
  destruct words as [|w' words]; [done|].
  change (join_space (w :: w' :: words))
    with (w ++ " "%char :: join_space (w' :: words)).
  apply Forall_app. split; [done|]. by constructor.
Qed.

Lemma join_space_trimmed words :
  Forall word words → trimmed_chars (join_space words).
Proof.
  intros Hwords. split.
  - destruct Hwords as [|w words [Hne Hw] _]; [done|].
    intros c Hc. assert (head w = Some c) as Hh.
    { destruct w as [|x w]; [done|]. by destruct words. }
    destruct w as [|x w]; [done|]. simplify_eq/=.
    by apply Forall_cons in Hw as [? _].
  - induction Hwords as [|w words [Hne Hw] Hwords IH]; [done|].
    intros c Hc. destruct words as [|w' words].
    + simpl in Hc. apply last_Some in Hc as [k ->].
      by apply Forall_app in Hw as [_ [? _]%Forall_cons].
    + change (join_space (w :: w' :: words))
        with (w ++ " "%char :: join_space (w' :: words)) in Hc.
      apply IH. rewrite last_app in Hc.
      destruct (last (" "%char :: join_space (w' :: words))) eqn:Hl.
      * rewrite last_cons in Hl.
        destruct (last (join_space (w' :: words))) eqn:Hl'; [congruence|].
        exfalso. apply last_None in Hl'.
        apply Forall_cons in Hwords as [[Hne' _] _].
        destruct w' as [|x w']; [done|]. by destruct words.
      * by rewrite last_cons in Hl; destruct (last (join_space _)).
Qed.

(** X11: the preprocessed query is its words, which hold no whitespace,
    joined by single spaces. *)
Theorem preprocess_query_words (query : string) :
  ∃ words,
    Forall word words
    ∧ list_ascii_of_string (preprocess_query query) = join_space words.
Proof.
  unfold preprocess_query. eexists. split.
  - by apply split_ws_words.
  - by rewrite list_ascii_of_string_of_list_ascii.
Qed.

(** X12: preprocessing a preprocessed query changes nothing. *)
Theorem preprocess_query_idempotent (query : string) :
  preprocess_query (preprocess_query query) = preprocess_query query.
Proof.
  set (q := sanitize_input query 1000).
  set (words := split_ws [] (list_ascii_of_string q)).
  assert (preprocess_query query = string_of_list_ascii (join_space words))
    as Hr by done.
  assert (Forall word words) as Hwords by by apply split_ws_words.
  pose proof (sanitize_no_nul query 1000) as Hnul. fold q in Hnul.
  assert (sanitize_input (preprocess_query query) 1000 = preprocess_query query)
    as Hfix.
  { apply sanitize_fixed; rewrite Hr.
    - rewrite list_ascii_of_string_of_list_ascii. intros Hin.
      assert (Forall (λ c, c ≠ NUL) (join_space words)) as Hall.
      { apply join_space_keeps; [done|]. apply split_ws_keeps; [done|].
        apply Forall_forall. by intros c Hc ->. }
      rewrite Forall_forall in Hall. by apply (Hall NUL).
    - unfold len. rewrite length_string_of_list.
      pose proof (join_space_length [] (list_ascii_of_string q)) as Hlen.
      fold words in Hlen. simpl in Hlen. rewrite length_list_ascii in Hlen.
      pose proof (sanitize_chars_length query 1000 ltac:(lia)) as Hq.
      fold q in Hq. rewrite length_list_ascii in Hq. lia.
    - rewrite list_ascii_of_string_of_list_ascii. by apply join_space_trimmed. }
  unfold preprocess_query at 1. rewrite Hfix, Hr.
  by rewrite list_ascii_of_string_of_list_ascii, split_ws_join.
Qed.

Example preprocess_query_example :
  preprocess_query "  hello   big  world " = "hello big world".
Proof. reflexivity. Qed.
End Preprocessing.

Section Metadata.
Import Helpers.
Implicit Types (d base additional : list (string * PyVal)) (k : string).

Lemma dict_get_set d k v k' :
  dict_get (dict_set d k v) k' = if decide (k = k') then Some v else dict_get d k'.
Proof.
  induction d as [|[k0 v0] d IH]; simpl.
  - by destruct (decide (k = k')).
  - destruct (decide (k0 = k)) as [->|Hne]; simpl.
    + by destruct (decide (k = k')).
    + destruct (decide (k0 = k')) as [->|Hne'].
      * by rewrite decide_False by done.
      * exact IH.
Qed.

Lemma dict_get_None d k : k ∉ d.*1 → dict_get d k = None.
Proof.
  induction d as [|[k0 v0] d IH]; simpl; [done|].
  intros Hin. rewrite not_elem_of_cons in Hin. destruct Hin as [Hne Hin].
  rewrite decide_False by done. by apply IH.
Qed.

Lemma keys_dict_set d k v :
  (dict_set d k v).*1 = if decide (k ∈ d.*1) then d.*1 else d.*1 ++ [k].
Proof.
  induction d as [|[k0 v0] d IH]; [done|].
  cbn [dict_set]. rewrite !fmap_cons. cbn [fst].
  destruct (decide (k0 = k)) as [->|Hne].
  - rewrite fmap_cons. cbn [fst].
    destruct (decide (k ∈ k :: d.*1)) as [|H]; [done|].
    exfalso. apply H. by left.
  - rewrite fmap_cons, IH. cbn [fst].
    destruct (decide (k ∈ d.*1)) as [Hin|Hout],
      (decide (k ∈ k0 :: d.*1)) as [Hin'|Hout']; try done.
    + exfalso. apply Hout'. by right.
    + by apply elem_of_cons in Hin' as [->|].
Qed.

(** X13: in the merged metadata a key of [additional] has the value
    [additional] gives it, and any other key the value [base] gives it. *)
Theorem merge_metadata_lookup base additional k :
  NoDup additional.*1 →
  dict_get (merge_metadata base additional) k
    = match dict_get additional k with
      | Some v => Some v
      | None => dict_get base k
      end.
Proof.
  unfold merge_metadata, dict_update. revert base.
  induction additional as [|[k0 v0] additional IH]; intros base Hnd; [done|].
  apply NoDup_cons in Hnd as [Hout Hnd]. simpl.
  rewrite IH by done. destruct (decide (k0 = k)) as [->|Hne].
  - rewrite dict_get_None by done. rewrite dict_get_set.
    by rewrite decide_True.
  - destruct (dict_get additional k); [done|].
    rewrite dict_get_set. by rewrite decide_False.
Qed.

Lemma merge_metadata_lookup_witness :
  dict_get (merge_metadata [("a", PInt 1); ("b", PInt 2)]
              [("b", PInt 3); ("c", PInt 4)]) "b"
    = match dict_get [("b", PInt 3); ("c", PInt 4)] "b" with
      | Some v => Some v
      | None => dict_get [("a", PInt 1); ("b", PInt 2)] "b"
      end.
Proof.
  apply (merge_metadata_lookup [("a", PInt 1); ("b", PInt 2)]
           [("b", PInt 3); ("c", PInt 4)] "b").
  apply (bool_decide_unpack _). vm_compute. reflexivity.
Defined.

Lemma filter_ext_in {A} (P Q : A → Prop) `{∀ x, Decision (P x)}
    `{∀ x, Decision (Q x)} (l : list A) :
  Forall (λ x, P x ↔ Q x) l → filter P l = filter Q l.
Proof.
  induction 1 as [|x l' Hx _ IH]; [done|].
  rewrite !filter_cons, IH.
  destruct (decide (P x)), (decide (Q x)); tauto.
Qed.

(** X14: merging keeps the keys of [base] in their places and puts the
    new keys of [additional] behind them, in the order of [additional]. *)
Theorem merge_metadata_keys base additional :
  NoDup additional.*1 →
  (merge_metadata base additional).*1
    = base.*1 ++ filter (λ k, k ∉ base.*1) additional.*1.
Proof.
  unfold merge_metadata, dict_update. revert base.
  induction additional as [|[k0 v0] additional IH]; intros base Hnd.
  - simpl. by rewrite app_nil_r.
  - apply NoDup_cons in Hnd as [Hout Hnd]. simpl.
    rewrite IH by done. rewrite keys_dict_set, filter_cons. simpl.
    destruct (decide (k0 ∈ base.*1)) as [Hin|Hnew].
    + by rewrite decide_False by tauto.
    + rewrite decide_True by done. rewrite <- app_assoc. simpl. do 2 f_equal.
      apply filter_ext_in, Forall_forall. intros k Hk.
      rewrite elem_of_app, list_elem_of_singleton.
      split; [tauto|]. intros Hnot [Hb| ->]; [tauto|done].
Qed.

Lemma merge_metadata_keys_witness :
  (merge_metadata [("a", PInt 1); ("b", PInt 2)]
     [("c", PInt 4); ("b", PInt 3)]).*1
    = [("a", PInt 1); ("b", PInt 2)].*1
        ++ filter (λ k, k ∉ [("a", PInt 1); ("b", PInt 2)].*1)
             [("c", PInt 4); ("b", PInt 3)].*1.
Proof.
  apply (merge_metadata_keys [("a", PInt 1); ("b", PInt 2)]
           [("c", PInt 4); ("b", PInt 3)]).
  apply (bool_decide_unpack _). vm_compute. reflexivity.
Defined.

Example merge_metadata_example :
  merge_metadata [("a", PInt 1); ("b", PInt 2)] [("c", PInt 4); ("b", PInt 3)]
    = [("a", PInt 1); ("b", PInt 3); ("c", PInt 4)].
Proof. reflexivity. Qed.
End Metadata.

(** ** More about the history and the context (agents/base_agent.py) *)

Section HistoryLaws.
Import BaseAgent Fixtures MoreFixtures.
Implicit Types (h : list Message) (a : Agent) (mh : Z).

Lemma groups_length h :
  (length (system_msgs h) + length (other_msgs h) = length h)%nat.
Proof.
  unfold system_msgs, other_msgs. induction h as [|x h IH]; [done|].
  rewrite !filter_cons. destruct (decide (is_system x)) as [Hs|Hs].
  - rewrite decide_False by tauto. simpl. lia.
  - rewrite decide_True by done. simpl. lia.
Qed.

Lemma str_or_nonempty (x : option string) (d : string) :
  d ≠ "" → str_or x d ≠ "".
Proof. intros Hd. destruct x as [v|]; simpl; [|done]. by case_decide. Qed.

Lemma append_and_trim_head mh h m x :
  head h = Some m → is_system m → head (append_and_trim mh h x) = Some m.
Proof.
  intros Hh Hm. destruct h as [|m' h]; [done|]. simplify_eq/=.
  unfold append_and_trim. case_decide; [|done].
  unfold trimmed, system_msgs. simpl. rewrite filter_cons_True by done. done.
Qed.

Lemma add_messages_head a calls m :
  head (conversation_history a) = Some m → is_system m →
  head (conversation_history (add_messages a calls)) = Some m.
Proof.
  intros Hh Hm. induction calls as [|c calls IH] using rev_ind; [done|].
  rewrite add_messages_snoc. unfold add_call. simpl.
  by apply append_and_trim_head.
Qed.

(** X15: whatever is appended to a new agent, and however often the
    history is trimmed, its first turn stays the system turn that
    [__init__] put there. *)
Theorem system_prompt_stays_first (st : Stamp) (agent_id : string)
    (system_prompt : option string) (max_history max_tokens : Z)
    (calls : list Append) :
  head (conversation_history
          (add_messages (init st agent_id system_prompt max_history max_tokens)
             calls))
    = Some (new_message st "system"
              (str_or system_prompt default_system_prompt) None None).
Proof.
  apply add_messages_head; [|done].
  unfold init. simpl. rewrite decide_False; [done|].
  by apply str_or_nonempty.
Qed.




Lemma other_msgs_snoc h m :
  ¬ is_system m → other_msgs (h ++ [m]) = other_msgs h ++ [m].
Proof.
  intros Hm. unfold other_msgs. rewrite filter_app. f_equal.
  by rewrite filter_cons_True, filter_nil.
Qed.

Lemma system_msgs_snoc h m :
  ¬ is_system m → system_msgs (h ++ [m]) = system_msgs h.
Proof.
  intros Hm. unfold system_msgs. rewrite filter_app.
  by rewrite filter_cons_False, filter_nil, app_nil_r.
Qed.

Lemma last_drop {A} (l : list A) (k : nat) :
  (k < length l)%nat → last (drop k l) = last l.
Proof.
  intros Hk. rewrite <- (take_drop k l) at 2.
  rewrite last_app. destruct (last (drop k l)) eqn:Hl; [done|].
  apply last_None in Hl. apply (f_equal length) in Hl.
  rewrite length_drop in Hl. simpl in Hl. lia.
Qed.

Lemma py_slice_from_last {A} (l : list A) start :
  start < 0 → l ≠ [] → last (py_slice_from l start) = last l.
Proof.
  intros Hs Hl. unfold py_slice_from. rewrite decide_True by done.
  apply last_drop. destruct l; [done|]. simpl. lia.
Qed.

(** X17: while the history holds fewer than [max_history] system turns,
    the message [add_message] returns is in the new history, and it is
    the last turn unless it is a system turn. *)
Theorem add_message_keeps_new_turn (st : Stamp) (r c : string)
    (md : option Metadata) a :
  Z.of_nat (length (system_msgs
     (conversation_history (add_message st r c md a).2))) < max_history a →
  (add_message st r c md a).1 ∈ conversation_history (add_message st r c md a).2
  ∧ (r ≠ "system" →
     last (conversation_history (add_message st r c md a).2)
       = Some (add_message st r c md a).1).
Proof.
  simpl. rewrite system_msgs_append_and_trim. intros Hs.
  set (m := new_message st r c None md) in *.
  set (h := conversation_history a) in *.
  assert (r ≠ "system" → last (append_and_trim (max_history a) h m) = Some m)
    as Hlast.
  { intros Hr. assert (¬ is_system m) as Hm by done.
    unfold append_and_trim. case_decide; [|apply last_snoc].
    unfold trimmed. rewrite last_app, py_slice_from_last.
    - by rewrite other_msgs_snoc, last_snoc.
    - lia.
    - rewrite other_msgs_snoc by done. by destruct (other_msgs h). }
  split; [|done].
  destruct (decide (r = "system")) as [Hr|Hr].
  - assert (m ∈ system_msgs (append_and_trim (max_history a) h m)) as Hin.
    { rewrite system_msgs_append_and_trim. apply list_elem_of_filter.
      split; [done|]. apply elem_of_app. right. by left. }
    by apply list_elem_of_filter in Hin as [_ ?].
  - specialize (Hlast Hr). apply last_Some in Hlast as [l' ->].
    apply elem_of_app. right. by left.
Qed.

Lemma add_message_keeps_new_turn_witness :
  (add_message stamp0 "user" "E" None scenario).1
    ∈ conversation_history (add_message stamp0 "user" "E" None scenario).2
  ∧ ("user" ≠ "system" →
     last (conversation_history (add_message stamp0 "user" "E" None scenario).2)
       = Some (add_message stamp0 "user" "E" None scenario).1).
Proof.
  apply (add_message_keeps_new_turn stamp0 "user" "E" None scenario).
  vm_compute. reflexivity.
Defined.

(** X18: when the system turns exceed [max_history] by at least the
    number of other turns, a turn that is not a system turn is dropped by
    the very call that appends it: the history is left as its system
    turns. *)
Theorem add_message_drops_new_turn (st : Stamp) (r c : string)
    (md : option Metadata) a :
  r ≠ "system" →
  Z.of_nat (length (other_msgs (conversation_history a))) + 1
    ≤ Z.of_nat (length (system_msgs (conversation_history a))) - max_history a →
  conversation_history (add_message st r c md a).2
    = system_msgs (conversation_history a)
  ∧ (add_message st r c md a).1
      ∉ conversation_history (add_message st r c md a).2.
Proof.
  intros Hr Hmany. simpl.
  set (m := new_message st r c None md).
  set (h := conversation_history a) in *.
  assert (¬ is_system m) as Hm by done.
  assert (append_and_trim (max_history a) h m = system_msgs h) as Heq.
  { unfold append_and_trim.
    pose proof (groups_length h) as Hg.
    rewrite decide_True by (rewrite length_app; simpl; lia).
    unfold trimmed. rewrite system_msgs_snoc, other_msgs_snoc by done.
    unfold py_slice_from. rewrite decide_False by lia.
    rewrite drop_ge; [apply app_nil_r|].
    rewrite length_app. simpl. lia. }
  rewrite Heq. split; [done|].
  intros Hin. by apply list_elem_of_filter in Hin as [? _].
Qed.

Lemma add_message_drops_new_turn_witness :
  conversation_history (add_message stamp0 "user" "A" None crowded).2
    = system_msgs (conversation_history crowded)
  ∧ (add_message stamp0 "user" "A" None crowded).1
      ∉ conversation_history (add_message stamp0 "user" "A" None crowded).2.
Proof.
  apply (add_message_drops_new_turn stamp0 "user" "A" None crowded).
  - discriminate.
  - vm_compute. discriminate.
Defined.
End HistoryLaws.

Section ContextLaws.
Import BaseAgent Fixtures.
Implicit Types (pending h : list Message) (context : list ContextEntry)
  (B cur : Z) (a : Agent).

Lemma context_loop_grows B pending context cur :
  context `suffix_of` context_loop B pending context cur.
Proof.
  revert context cur. induction pending as [|m pending IH]; intros; simpl; [done|].
  case_decide; [done|]. etrans; [|apply IH]. by apply suffix_cons_r.
Qed.

Lemma context_loop_monotone B1 B2 pending : ∀ context cur,
  B1 ≤ B2 →
  context_loop B1 pending context cur
    `suffix_of` context_loop B2 pending context cur.
Proof.
  induction pending as [|m pending IH]; intros context cur HB; simpl; [done|].
  destruct (decide (cur + token_count m > B1)) as [Hstop|Hgo].
  - destruct (decide (cur + token_count m > B2)); [done|].
    etrans; [|apply context_loop_grows]. by apply suffix_cons_r.
  - rewrite decide_False by lia. by apply IH.
Qed.

(** X19: a larger budget never takes a turn out of the context: the
    context for the smaller budget is a suffix of the one for the larger. *)
Theorem context_grows_with_budget a (max_tokens1 max_tokens2 : option Z) :
  effective_max_tokens a max_tokens1 ≤ effective_max_tokens a max_tokens2 →
  get_conversation_context a max_tokens1
    `suffix_of` get_conversation_context a max_tokens2.
Proof. intros HB. unfold get_conversation_context. by apply context_loop_monotone. Qed.

Lemma context_grows_with_budget_witness :
  get_conversation_context two_turns (Some 2)
    `suffix_of` get_conversation_context two_turns (Some 3).
Proof.
  apply (context_grows_with_budget two_turns (Some 2) (Some 3)).
  vm_compute. discriminate.
Defined.

Lemma context_loop_all B pending : ∀ (acc : list Message) cur,
  Forall (λ m, 0 ≤ token_count m) pending →
  cur + sum_tokens pending ≤ B →
  context_loop B pending (to_entry <$> acc) cur
    = to_entry <$> (reverse pending ++ acc).
Proof.
  induction pending as [|m pending IH]; intros acc cur Hpos Hsum; [done|].
  apply Forall_cons in Hpos as [Hm Hpos].
  assert (sum_tokens (m :: pending) = token_count m + sum_tokens pending)
    as Hcons by done.
  assert (0 ≤ sum_tokens pending) as Hrest.
  { clear -Hpos. induction Hpos as [|x l Hx _ IHl]; [done|].
    change (sum_tokens (x :: l)) with (token_count x + sum_tokens l). lia. }
  simpl. rewrite decide_False by lia.
  rewrite <- fmap_cons, IH by (done || lia).
  by rewrite reverse_cons, <- app_assoc.
Qed.

Lemma append_and_trim_sublist mh h m :
  ∀ x, x ∈ append_and_trim mh h m → x ∈ h ++ [m].
Proof.
  intros x. unfold append_and_trim. case_decide; [|done].
  unfold trimmed. rewrite elem_of_app. intros [Hin|Hin].
  - by apply list_elem_of_filter in Hin as [_ ?].
  - destruct (py_slice_from_suffix (other_msgs (h ++ [m]))
                (- mh + Z.of_nat (length (system_msgs (h ++ [m]))))) as [k Hk].
    assert (x ∈ other_msgs (h ++ [m])) as Hin'
      by (rewrite Hk; apply elem_of_app; by right).
    by apply list_elem_of_filter in Hin' as [_ ?].
Qed.

(** Every turn of an agent built by [__init__] and [add_message] has the
    token count [calculate_token_estimate] gives its content. *)
Lemma reachable_token_counts (st : Stamp) (agent_id : string)
    (system_prompt : option string) (max_history max_tokens : Z)
    (calls : list Append) :
  Forall (λ m, token_count m = calculate_token_estimate (content m))
    (conversation_history
       (add_messages (init st agent_id system_prompt max_history max_tokens)
          calls)).
Proof.
  induction calls as [|c calls IH] using rev_ind.
  - unfold init. simpl. case_decide; [done|]. by repeat constructor.
  - rewrite add_messages_snoc. unfold add_call. simpl.
    apply Forall_forall. intros x Hx%append_and_trim_sublist.
    apply elem_of_app in Hx as [Hx|Hx].
    + rewrite Forall_forall in IH. by apply IH.
    + by apply list_elem_of_singleton in Hx as ->.
Qed.

Lemma calculate_token_estimate_nonneg (text : string) :
  0 ≤ calculate_token_estimate text.
Proof. unfold calculate_token_estimate. apply Z.div_pos; lia. Qed.

(** X20: for an agent built by [__init__] and [add_message], a budget
    that covers the token counts of the whole history gives the whole
    history as context. *)
Theorem context_is_whole_history (st : Stamp) (agent_id : string)
    (system_prompt : option string) (max_history max_tokens : Z)
    (calls : list Append) (budget : option Z) :
  let a := add_messages
             (init st agent_id system_prompt max_history max_tokens) calls in
  sum_tokens (conversation_history a) ≤ effective_max_tokens a budget →
  get_conversation_context a budget = to_entry <$> conversation_history a.
Proof.
  intros a Hsum. unfold get_conversation_context.
  change (@nil ContextEntry) with (to_entry <$> @nil Message).
  rewrite context_loop_all.
  - by rewrite reverse_involutive, app_nil_r.
  - apply Forall_reverse.
    eapply Forall_impl; [apply reachable_token_counts|].
    intros m ->. apply calculate_token_estimate_nonneg.
  - by rewrite sum_tokens_reverse.
Qed.

Lemma context_is_whole_history_witness :
  get_conversation_context
    (add_messages (init stamp0 "agent" (Some "S") 50 4000)
       [call "user" "12345678"; call "assistant" "1234"]) (Some 3)
    = to_entry <$> conversation_history
        (add_messages (init stamp0 "agent" (Some "S") 50 4000)
           [call "user" "12345678"; call "assistant" "1234"]).
Proof.
  apply (context_is_whole_history stamp0 "agent" (Some "S") 50 4000
           [call "user" "12345678"; call "assistant" "1234"] (Some 3)).
  vm_compute. discriminate.
Defined.
End ContextLaws.

(** ** More about the tools and the dispatcher (mcp/tools.py, mcp/server.py) *)

Section Registering.
Import Tools Fixtures.

(** X21: after [register(tool)], [execute_tool] under the tool's name
    runs that tool, whatever was registered under the name before, and
    every other name is served as before. *)
Theorem register_then_execute (now : string) (tools : Registry)
    (tool : MCPTool) (parameters : PyVal) :
  Tools.execute_tool now (register tool tools) (name tool) parameters
    = match execute tool now parameters with
      | Returned v => Returned v
      | Raised e =>
          Returned (format_tool_output now (PStr (name tool)) PNone (Some e))
      end
  ∧ ∀ other, other ≠ name tool →
      Tools.execute_tool now (register tool tools) other parameters
        = Tools.execute_tool now tools other parameters.
Proof.
  unfold Tools.execute_tool, get_tool, register. split.
  - by rewrite lookup_insert_eq.
  - intros other Hne. by rewrite lookup_insert_ne.
Qed.

(** X22: an expression made only of the characters
    ["0123456789+-*/()., "] is handed to [eval] exactly once; the output
    carries [eval]'s value on success and the text of its exception
    otherwise. *)
Theorem calculator_passes_allowed (eval : string → Outcome PyVal)
    (now expression : string) :
  (∀ c, c ∈ list_ascii_of_string expression → c ∈ allowed_chars) →
  calculator_execute eval now expression
    = (match eval expression with
       | Returned result =>
           format_tool_output now (PStr "calculator")
             (PDict [("expression", PStr expression); ("result", result)])
             None
       | Raised e =>
           format_tool_output now (PStr "calculator") PNone (Some e)
       end, [expression]).
Proof.
  intros Hall. apply all_allowed_true in Hall.
  unfold calculator_execute. rewrite Hall. by destruct (eval expression).
Qed.

Lemma calculator_passes_allowed_witness :
  calculator_execute arith_only_eval "t" "1,2"
    = (match arith_only_eval "1,2" with
       | Returned result =>
           format_tool_output "t" (PStr "calculator")
             (PDict [("expression", PStr "1,2"); ("result", result)]) None
       | Raised e =>
           format_tool_output "t" (PStr "calculator") PNone (Some e)
       end, ["1,2"]).
Proof.
  apply (calculator_passes_allowed arith_only_eval "t" "1,2").
  apply Forall_forall. cbv [list_ascii_of_string].
  repeat (apply Forall_cons_2;
          [apply (bool_decide_unpack _); vm_compute; reflexivity|]).
  apply Forall_nil_2.
Defined.
End Registering.

Section FileReading.
Import FileRead MoreFixtures.
Variables (join : string → string → string) (abspath : string → string)
  (read : string → Outcome string).

Lemma prefix_iff (p s : string) :
  String.prefix p s = true ↔ ∃ rest, s = p +:+ rest.
Proof.
  revert s. induction p as [|c p IH]; intros [|c' s]; simpl.
  - split; [by exists ""|done].
  - split; [by exists (String c' s)|done].
  - split; [done|]. by intros [rest Hr].
  - destruct (ascii_dec c c') as [->|Hne].
    + rewrite IH. split; intros [rest Hr]; exists rest; [by rewrite Hr|].
      by injection Hr.
    + split; [done|]. intros [rest Hr]. injection Hr. by intros _ ->.
Qed.

(** X23: [FileReadTool.execute] hands a path to [open] exactly when the
    absolute form of the joined path begins, as a string, with the
    absolute form of the base path; the path opened is then the joined
    path, and otherwise the call fails with "Invalid file path". *)
Theorem file_read_guard (now base_path file_path : string) :
  ((∃ rest, abspath (join base_path file_path) = abspath base_path +:+ rest) →
     (file_read_execute join abspath read now base_path file_path).2
       = [join base_path file_path])
  ∧ ((∀ rest, abspath (join base_path file_path) ≠ abspath base_path +:+ rest) →
       file_read_execute join abspath read now base_path file_path
         = (format_tool_output now (PStr "file_read") PNone
              (Some "Invalid file path"), [])).
Proof.
  unfold file_read_execute. split.
  - intros Hpre%prefix_iff. rewrite Hpre. simpl.
    by destruct (read (join base_path file_path)).
  - intros Hno.
    destruct (String.prefix (abspath base_path)
                (abspath (join base_path file_path))) eqn:Hp; [|done].
    apply prefix_iff in Hp as [rest Hr]. by destruct (Hno rest).
Qed.
End FileReading.

Section FileReadingExamples.
Import FileRead MoreFixtures.

(** The comparison is one of strings: a directory whose name merely
    begins like the base directory passes it.  ([os.path.join] returns an
    absolute second argument as it is, and [os.path.abspath] a normalised
    absolute path as it is.) *)
Example file_read_sibling_directory :
  (file_read_execute (λ _ p, p) (λ p, p) read0 "t" "/srv/data"
     "/srv/data_private/key").2 = ["/srv/data_private/key"].
Proof. reflexivity. Qed.

Example file_read_examples :
  file_read_execute join0 abspath0 read0 "t" "data" "notes.txt"
    = (format_tool_output "t" (PStr "file_read")
         (PDict [("file_path", PStr "notes.txt"); ("content", PStr "hello");
                 ("size", PInt 5)]) None,
       ["data/notes.txt"])
  ∧ (file_read_execute join0 abspath0 read0 "t" "data" "nope.txt").2
    = ["data/nope.txt"].
Proof. split; reflexivity. Qed.
End FileReadingExamples.

Section BatchLaws.
Import MCPServer Batches Fixtures.
Variable json_loads : string → Outcome PyVal.
Implicit Types (tools : Tools.Registry) (now : string)
  (calls xs ys : list ToolCall).

Lemma execute_tools_loop_acc now tools calls : ∀ acc,
  execute_tools_loop json_loads now tools calls acc
    = match execute_tools_loop json_loads now tools calls [] with
      | Returned rs => Returned (acc ++ rs)
      | Raised e => Raised e
      end.
Proof.
  induction calls as [|tc calls IH]; intros acc; simpl.
  - by rewrite app_nil_r.
  - destruct (tool_name_of tc) as [n|e]; [|done].
    destruct (truthy n); simpl; [|apply IH].
    destruct (parameters_of json_loads tc) as [p|e]; [|done].
    destruct (MCPServer.execute_tool now tools n p) as [r|e]; [|done].
    rewrite IH, (IH [r]).
    destruct (execute_tools_loop json_loads now tools calls []); [|done].
    by rewrite <- app_assoc.
Qed.

Lemma execute_tools_loop_app now tools xs ys : ∀ acc,
  execute_tools_loop json_loads now tools (xs ++ ys) acc
    = match execute_tools_loop json_loads now tools xs acc with
      | Returned rs => execute_tools_loop json_loads now tools ys rs
      | Raised e => Raised e
      end.
Proof.
  induction xs as [|tc xs IH]; intros acc; simpl; [done|].
  destruct (tool_name_of tc) as [n|e]; [|done].
  destruct (truthy n); simpl; [|apply IH].
  destruct (parameters_of json_loads tc) as [p|e]; [|done].
  destruct (MCPServer.execute_tool now tools n p) as [r|e]; [|done].
  apply IH.
Qed.

(** X24: the results of a batch made of two batches are the results of
    the first followed by those of the second; an exception in either is
    the exception of the whole, and the results obtained before it are
    not returned. *)
Theorem execute_tools_app now tools xs ys :
  execute_tools json_loads now tools (xs ++ ys)
    = match execute_tools json_loads now tools xs with
      | Raised e => Raised e
      | Returned r1 =>
          match execute_tools json_loads now tools ys with
          | Returned r2 => Returned (r1 ++ r2)
          | Raised e => Raised e
          end
      end.
Proof.
  unfold execute_tools. rewrite execute_tools_loop_app.
  destruct (execute_tools_loop json_loads now tools xs []) as [r1|e]; [|done].
  apply execute_tools_loop_acc.
Qed.

(** X25: a call whose name or parameters cannot be read ends the batch
    with its exception, also when every call before it was dispatched. *)
Theorem execute_tools_aborts now tools xs tc ys (e : string) :
  Forall (well_formed json_loads) xs →
  breaks json_loads tc e →
  execute_tools json_loads now tools (xs ++ tc :: ys) = Raised e.
Proof.
  intros Hwf Hbreak. unfold execute_tools. rewrite execute_tools_loop_app.
  destruct (execute_tools_loop_spec json_loads now tools xs Hwf [])
    as (rs & -> & _).
  simpl. destruct Hbreak as [->|[Hname ->]]; [done|].
  unfold has_name in Hname. destruct (tool_name_of tc) as [n|]; [|done].
  by rewrite Hname.
Qed.
End BatchLaws.

Section BatchLawsExamples.
Import MCPServer Batches Fixtures.

Lemma execute_tools_aborts_witness :
  execute_tools json_loads0 "t" two_tools
    ([tool_call "echo" (PDict [])] ++ tool_call "echo" (PStr "{") :: [])
    = Raised "Expecting value: line 1 column 1 (char 0)".
Proof.
  apply (execute_tools_aborts json_loads0 "t" two_tools
           [tool_call "echo" (PDict [])] (tool_call "echo" (PStr "{")) []).
  - apply Forall_cons_2; [|apply Forall_nil_2].
    right. by exists "echo", (PDict []).
  - right. split; reflexivity.
Defined.
End BatchLawsExamples.

(** ** More about the factory (llm/llm_factory.py) *)

Section FactoryLaws.
Import LLMFactory Providers Fixtures MoreFixtures.
Context {Response : Type}.
Implicit Types (settings : Settings) (f : Factory) (p : LLMProvider)
  (chat : Client → Outcome Response).



Lemma get_client_missing settings (provider : option string) f p :
  str_or provider (value (default_provider f)) = value p →
  configured settings p = false →
  clients f !! value p = None →
  ∃ e, get_client settings provider f = (Raised e, f).
Proof.
  intros Hp Hkey Hlook. unfold get_client. rewrite Hp, Hlook.
  destruct p; simpl in *; rewrite Hkey; eauto.
Qed.

Lemma get_client_unknown settings (name : string) f :
  name ≠ "" → (∀ p, name ≠ value p) → cache_consistent f →
  get_client settings (Some name) f
    = (Raised ("Unknown LLM provider: " +:+ name), f).
Proof.
  intros Hne Hunknown Hcache. unfold get_client. simpl.
  rewrite decide_False by done.
  destruct (clients f !! name) as [c|] eqn:Hlook.
  - destruct (Hcache _ _ Hlook) as (p & -> & _). by destruct (Hunknown p).
  - rewrite decide_False by apply (Hunknown CLAUDE).
    by rewrite decide_False by apply (Hunknown OPENAI).
Qed.

(** X27: a provider name that is neither "claude" nor "openai" does not
    make [chat_with_fallback] fail: with both keys present the request is
    served by the provider other than the class default. *)
Theorem unknown_provider_is_served settings f chat (name : string) :
  name ≠ "" → (∀ p, name ≠ value p) →
  configured settings CLAUDE = true →
  configured settings OPENAI = true →
  cache_consistent f →
  observed (chat_with_fallback chat settings (Some name) f)
    = (chat (other_client (default_provider f)),
       [other_client (default_provider f)]).
Proof.
  intros Hne Hunknown Hc Ho Hcache. unfold chat_with_fallback.
  rewrite get_client_unknown by done.
  destruct (get_fallback_client_both settings f Hc Ho Hcache)
    as (f2 & -> & _ & _).
  done.
Qed.

(** X28: when only the provider that is not the class default has its
    key, a call that names no provider is served by that provider, and
    the default's client is never built. *)
Theorem only_other_configured settings f chat :
  configured settings (default_provider f) = false →
  configured settings (other_provider (default_provider f)) = true →
  clients f !! value (default_provider f) = None →
  cache_consistent f →
  observed (chat_with_fallback chat settings None f)
    = (chat (other_client (default_provider f)),
       [other_client (default_provider f)]).
Proof.
  intros Hdef Hother Hlook Hcache. unfold chat_with_fallback.
  destruct (get_client_missing settings None f (default_provider f))
    as [e ->]; [done..|].
  unfold get_fallback_client, get_available_providers.
  destruct (default_provider f) eqn:Hd; simpl in Hdef, Hother;
    rewrite Hdef, Hother; simpl.
  - destruct (get_client_configured settings (Some "openai") f OPENAI)
      as (f' & -> & _ & _); [by rewrite Hd | done | done |]. done.
  - destruct (get_client_configured settings (Some "claude") f CLAUDE)
      as (f' & -> & _ & _); [by rewrite Hd | done | done |]. done.
Qed.
(** X29: when only the class default has its key and its [chat] raises,
    [chat_with_fallback] tries that same client a second time and its
    exception reaches the caller. *)
Theorem only_default_configured settings f chat (e : string) :
  configured settings (default_provider f) = true →
  configured settings (other_provider (default_provider f)) = false →
  cache_consistent f →
  chat (client_of (default_provider f)) = Raised e →
  observed (chat_with_fallback chat settings None f)
    = (Raised e,
       [client_of (default_provider f); client_of (default_provider f)]).
Proof.
  intros Hdef Hother Hcache Hfail. unfold chat_with_fallback.
  destruct (get_client_configured settings None f (default_provider f))
    as (f1 & -> & Hcache1 & Hd1); [done..|].
  rewrite Hfail.
  assert (∃ f2, get_fallback_client settings f1
                  = (Returned (client_of (default_provider f)), f2))
    as [f2 ->].
  { unfold get_fallback_client, get_available_providers.
    destruct (get_client_configured settings None f1 (default_provider f))
      as (f2 & Hget & _ & _); [by rewrite Hd1 | done | done |].
    exists f2. rewrite Hd1.
    destruct (default_provider f); simpl in Hdef, Hother;
      rewrite Hdef, Hother; simpl; by rewrite Hget. }
  by rewrite Hfail.
Qed.

(** X30: after [set_default_provider] with a provider whose key is
    present, [get_client()] without a provider returns that provider's
    client. *)
Theorem set_default_provider_then_get settings f p :
  configured settings p = true →
  cache_consistent f →
  ∃ f1 f2,
    set_default_provider (value p) f = (Returned (), f1)
    ∧ get_client settings None f1 = (Returned (client_of p), f2).
Proof.
  intros Hkey Hcache.
  set (f1 := {| clients := clients f; default_provider := p |}).
  destruct (get_client_configured settings None f1 p)
    as (f2 & Hget & _ & _); [done..|].
  exists f1, f2. split; [|done]. by destruct p.
Qed.
End FactoryLaws.

Section FactoryLawsExamples.
Import LLMFactory Providers Fixtures MoreFixtures.

Lemma unknown_provider_is_served_witness :
  observed (chat_with_fallback claude_down both_keys (Some "gpt") initial)
    = (claude_down (other_client (default_provider initial)),
       [other_client (default_provider initial)]).
Proof.
  apply (unknown_provider_is_served both_keys initial claude_down "gpt");
    [discriminate | by intros [] | reflexivity | reflexivity
    | apply initial_consistent].
Defined.

Lemma only_other_configured_witness :
  observed (chat_with_fallback claude_down openai_only None initial)
    = (claude_down (other_client (default_provider initial)),
       [other_client (default_provider initial)]).
Proof.
  apply (only_other_configured openai_only initial claude_down);
    [reflexivity | reflexivity | reflexivity | apply initial_consistent].
Defined.

Lemma only_default_configured_witness :
  observed (chat_with_fallback claude_down claude_only None initial)
    = (Raised "claude: service unavailable",
       [client_of (default_provider initial);
        client_of (default_provider initial)]).
Proof.
  apply (only_default_configured claude_only initial claude_down
           "claude: service unavailable");
    [reflexivity | reflexivity | apply initial_consistent | reflexivity].
Defined.

Lemma set_default_provider_then_get_witness :
  ∃ f1 f2,
    set_default_provider (value OPENAI) initial = (Returned (), f1)
    ∧ get_client both_keys None f1 = (Returned (client_of OPENAI), f2).
Proof.
  apply (set_default_provider_then_get both_keys initial OPENAI);
    [reflexivity | apply initial_consistent].
Defined.

Example fallback_examples :
  observed (chat_with_fallback claude_down both_keys (Some "gpt") initial)
    = (Returned "hello from openai", [OpenAIClient])
  ∧ observed (chat_with_fallback claude_down openai_only None initial)
    = (Returned "hello from openai", [OpenAIClient])
  ∧ observed (chat_with_fallback claude_down claude_only None initial)
    = (Raised "claude: service unavailable", [ClaudeClient; ClaudeClient]).
Proof. repeat split; vm_compute; reflexivity. Qed.
End FactoryLawsExamples.
